(** * Oh My Codex website: the behaviour layer of the page script

    A shallow embedding of the site's main script, in its stats-enabled
    variant (the first of the two immediately-invoked functions, whose
    line numbers the comments below refer to), and the properties its
    specification states about it.

    Conventions of the embedding:
    - an element's [classList] is a finite set of class names
      ([gset string]); [add] is union with a singleton and [remove] is
      difference, so both are idempotent as in the DOM;
    - values the browser hands to a handler ([window.scrollY], the
      pressed key, the outcome of a clipboard write, the reply of a
      [fetch], the reading of [Date.now()]) are arguments of the handler;
    - pixel offsets that the script only compares (the sticky
      navigation) are rationals, every finite double being one; those it
      adds and subtracts (the anchor listener) are doubles, added and
      subtracted in binary64;
    - the [href] the anchor listener hands to [document.querySelector]
      is read as a CSS selector;
    - a function that can throw returns a [result];
    - JSON values are null, numbers and objects, and numbers are the
      integers a double holds exactly (up to 2^53 in size), which is what
      star, fork and download counts and millisecond clock readings are;
      the division inside [formatNumber] is computed in binary64. *)

From Stdlib Require Import ZArith QArith Ascii String List Lia Lqa.
From Stdlib Require Import Floats.SpecFloat.
From stdpp Require Import gmap strings pretty.

Local Open Scope string_scope.

(** ** The shared status record ([AppState], lines 10-16) *)

Inductive direction := Up | Down.

Record AppState := mkAppState {
  initialized : bool;
  scrollDirection : direction;
  lastScrollY : Q;
  navVisible : bool;
  mobileMenuOpen : bool
}.

Definition AppState_init : AppState :=
  {| initialized := false;
     scrollDirection := Down;
     lastScrollY := 0%Q;
     navVisible := true;
     mobileMenuOpen := false |}.

(** [classList.add] and [classList.remove]. *)
Definition classList_add (c : string) (cl : gset string) : gset string := cl ∪ {[ c ]}.
Definition classList_remove (c : string) (cl : gset string) : gset string := cl ∖ {[ c ]}.

(** JavaScript's [a > b] on finite numbers. *)
Definition js_gt (a b : Q) : bool := negb (Qle_bool a b).

(** ** Sticky navigation ([setupFixedNav], lines 76-117) *)

Module Nav.

(** What [handleNavScroll] reads and writes: the status record and the
    class list of the [.nav] element its closure holds. *)
Record page := mkPage {
  app : AppState;
  nav : gset string
}.

(** The condition of line 103, as the specification words it. *)
Definition downward (prev curr : Q) : Prop := (prev < curr)%Q ∧ (100 < curr)%Q.

Definition handleNavScroll (currentScrollY : Q) (p : page) : page :=
  let nav1 :=
    if js_gt currentScrollY 50
    then classList_add "scrolled" (nav p)
    else classList_remove "scrolled" (nav p) in
  let a := app p in
  if js_gt currentScrollY (lastScrollY a) && js_gt currentScrollY 100
  then
    {| app := {| initialized := initialized a;
                 scrollDirection := Down;
                 lastScrollY := currentScrollY;
                 navVisible := false;
                 mobileMenuOpen := mobileMenuOpen a |};
       nav := classList_add "hidden" nav1 |}
  else
    {| app := {| initialized := initialized a;
                 scrollDirection := Up;
                 lastScrollY := currentScrollY;
                 navVisible := true;
                 mobileMenuOpen := mobileMenuOpen a |};
       nav := classList_remove "hidden" nav1 |}.

End Nav.

(** ** Mobile menu ([setupMobileMenu], lines 123-174) *)

Module Menu.

(** The state of an attached controller: line 128 returns before any
    listener is added unless both the hamburger and the links container
    exist, so both are present here; the overlay is optional. *)
Record menu := mkMenu {
  app : AppState;
  navLinks : gset string;
  hamburger : gset string;
  overlay : option (gset string);
  bodyOverflow : string
}.

Definition set_mobileMenuOpen (b : bool) (a : AppState) : AppState :=
  {| initialized := initialized a;
     scrollDirection := scrollDirection a;
     lastScrollY := lastScrollY a;
     navVisible := navVisible a;
     mobileMenuOpen := b |}.

Definition openMobileMenu (m : menu) : menu :=
  {| app := set_mobileMenuOpen true (app m);
     navLinks := classList_add "active" (navLinks m);
     hamburger := classList_add "active" (hamburger m);
     overlay := classList_add "active" <$> overlay m;
     bodyOverflow := "hidden" |}.

Definition closeMobileMenu (m : menu) : menu :=
  {| app := set_mobileMenuOpen false (app m);
     navLinks := classList_remove "active" (navLinks m);
     hamburger := classList_remove "active" (hamburger m);
     overlay := classList_remove "active" <$> overlay m;
     bodyOverflow := "" |}.

Definition toggleMobileMenu (m : menu) : menu :=
  if mobileMenuOpen (app m) then closeMobileMenu m else openMobileMenu m.

(** The four listeners of lines 131-149.  The overlay listener exists
    only when the overlay does. *)
Inductive event :=
| HamburgerClick
| OverlayClick
| LinkClick
| KeyDown (key : string).

Definition handle (e : event) (m : menu) : menu :=
  match e with
  | HamburgerClick => toggleMobileMenu m
  | OverlayClick =>
      match overlay m with
      | Some _ => closeMobileMenu m
      | None => m
      end
  | LinkClick => closeMobileMenu m
  | KeyDown key =>
      if String.eqb key "Escape" && mobileMenuOpen (app m)
      then closeMobileMenu m
      else m
  end.

Definition run (es : list event) (m : menu) : menu :=
  fold_left (fun m e => handle e m) es m.

(** The two-state machine of the specification. *)
Inductive phase := Closed | Open.

Definition phase_of (m : menu) : phase :=
  if mobileMenuOpen (app m) then Open else Closed.

Definition next (e : event) (ph : phase) : phase :=
  match e, ph with
  | HamburgerClick, Closed => Open
  | HamburgerClick, Open => Closed
  | (OverlayClick | LinkClick), _ => Closed
  | KeyDown key, Open => if String.eqb key "Escape" then Closed else Open
  | KeyDown _, Closed => Closed
  end.

(** Whether a class list carries the active styling. *)
Definition active (cl : gset string) : Prop := "active" ∈ cl.

(** The styling that goes with the flag: all of it when the menu is
    open, none of it when it is closed. *)
Definition styled_open (m : menu) : Prop :=
  active (navLinks m) ∧ active (hamburger m) ∧
  (∀ o, overlay m = Some o → active o) ∧
  bodyOverflow m = "hidden".

Definition styled_closed (m : menu) : Prop :=
  ¬ active (navLinks m) ∧ ¬ active (hamburger m) ∧
  (∀ o, overlay m = Some o → ¬ active o) ∧
  bodyOverflow m = "".

Definition consistent (m : menu) : Prop :=
  (mobileMenuOpen (app m) = true ↔ styled_open m) ∧
  (mobileMenuOpen (app m) = false → styled_closed m).

(** A page as it loads: no overlay, nothing styled. *)
Definition menu0 : menu :=
  {| app := AppState_init; navLinks := ∅; hamburger := ∅;
     overlay := None; bodyOverflow := "" |}.

(** A click on the overlay needs an overlay. *)
Definition possible (e : event) (m : menu) : Prop :=
  e = OverlayClick → is_Some (overlay m).

(** The events whose handler runs [openMobileMenu] or
    [closeMobileMenu] in state [m]. *)
Definition transitions (e : event) (m : menu) : bool :=
  match e with
  | HamburgerClick | LinkClick => true
  | OverlayClick => bool_decide (is_Some (overlay m))
  | KeyDown key => String.eqb key "Escape" && mobileMenuOpen (app m)
  end.

End Menu.

(** ** Copy buttons ([setupCopyButtons], lines 180-211) *)

Module Copy.

Local Open Scope N_scope.

(** A [[data-copy]] button: its label, its class list, and whether
    [closest('.code-block')] and then [querySelector('code')] find a
    code element for it. *)
Record button := mkButton {
  textContent : string;
  classList : gset string;
  hasCode : bool
}.

(** The two callbacks handed to [setTimeout]: the one of lines 198-201
    closes over [originalText], the one of lines 205-207 over nothing. *)
Inductive callback :=
| RestoreOriginal (originalText : string)
| RestoreCopy.

Record timer := mkTimer {
  due : N;
  target : nat;
  action : callback
}.

(** Time in milliseconds, the buttons of the [querySelectorAll]
    snapshot by index, the pending timeouts in the order they were
    scheduled, and the lines written with [console.error]. *)
Record state := mkState {
  now : N;
  buttons : list button;
  timers : list timer;
  errors : list string
}.

(** The click listener of button [i].  Nothing is written before the
    [await]; [ok] tells whether [navigator.clipboard.writeText]
    resolved or rejected, and the event takes place when it settles. *)
Definition click (i : nat) (ok : bool) (s : state) : state :=
  match buttons s !! i with
  | None => s
  | Some b =>
      if negb (hasCode b) then s
      else if ok then
        let originalText := textContent b in
        {| now := now s;
           buttons := <[ i := {| textContent := "Copied!";
                                 classList := classList_add "copied" (classList b);
                                 hasCode := hasCode b |} ]> (buttons s);
           timers := timers s ++
                     [ {| due := now s + 2000; target := i;
                          action := RestoreOriginal originalText |} ];
           errors := errors s |}
      else
        {| now := now s;
           buttons := <[ i := {| textContent := "Failed";
                                 classList := classList b;
                                 hasCode := hasCode b |} ]> (buttons s);
           timers := timers s ++
                     [ {| due := now s + 2000; target := i;
                          action := RestoreCopy |} ];
           errors := errors s ++ [ "[OMX] Failed to copy:" ] |}
  end.

(** What a timeout callback does to the button it closes over: lines
    199-200 for the first, line 206 for the second. *)
Definition restore (a : callback) (b : button) : button :=
  match a with
  | RestoreOriginal originalText =>
      {| textContent := originalText;
         classList := classList_remove "copied" (classList b);
         hasCode := hasCode b |}
  | RestoreCopy =>
      {| textContent := "Copy";
         classList := classList b;
         hasCode := hasCode b |}
  end.

(** Running a timeout callback. *)
Definition fire (t : timer) (bs : list button) : list button :=
  match bs !! target t with
  | None => bs
  | Some b => <[ target t := restore (action t) b ]> bs
  end.

Definition is_due (t' : N) (t : timer) : bool := due t <=? t'.

(** [d] milliseconds pass: the timeouts that have come due run in the
    order they were scheduled (all delays are equal, so that is the
    order of their due times) and leave the queue. *)
Definition advance (d : N) (s : state) : state :=
  let t' := now s + d in
  {| now := t';
     buttons := fold_left (fun bs t => fire t bs)
                          (List.filter (is_due t') (timers s)) (buttons s);
     timers := List.filter (fun t => negb (is_due t' t)) (timers s);
     errors := errors s |}.

Inductive event :=
| Click (i : nat) (ok : bool)
| Wait (d : N).

Definition step (e : event) (s : state) : state :=
  match e with
  | Click i ok => click i ok s
  | Wait d => advance d s
  end.

Definition run (es : list event) (s : state) : state :=
  fold_left (fun s e => step e s) es s.

(** No timeout is pending for button [i]. *)
Definition quiet (i : nat) (s : state) : Prop :=
  Forall (fun t => target t ≠ i) (timers s).

(** No timeout is due later than 2000 ms from now: so it is on a page
    with nothing pending, and so it stays (every delay is 2000 ms and the
    clock does not run backwards). *)
Definition timely (s : state) : Prop :=
  Forall (fun t => due t <= now s + 2000) (timers s).

(** The label and marks of button [i]. *)
Definition label (i : nat) (s : state) : option string :=
  textContent <$> buttons s !! i.


(** The trace with the clicks on button [i] taken out. *)
Definition without (i : nat) (es : list event) : list event :=
  List.filter (fun e => match e with
                        | Click j _ => negb (Nat.eqb j i)
                        | Wait _ => true
                        end) es.

(** The button after a click, as lines 195-196 and 204 leave it. *)
Definition clicked (ok : bool) (b : button) : button :=
  {| textContent := if ok then "Copied!" else "Failed";
     classList := if ok then classList_add "copied" (classList b) else classList b;
     hasCode := hasCode b |}.

(** The timeout a click on a button showing [b] schedules at time [t]. *)
Definition scheduled (t : N) (i : nat) (ok : bool) (b : button) : timer :=
  {| due := t + 2000; target := i;
     action := if ok then RestoreOriginal (textContent b) else RestoreCopy |}.

(** What concerns button [j] alone: the clock, the button, and the
    timeouts pending for it. *)
Definition aims_at (j : nat) (t : timer) : bool := Nat.eqb (target t) j.

Definition slice (j : nat) (s : state) : N * option button * list timer :=
  (now s, buttons s !! j, List.filter (aims_at j) (timers s)).

(** A page with one button labelled [Copy]. *)
Definition page1 : state :=
  {| now := 0;
     buttons := [ {| textContent := "Copy"; classList := ∅; hasCode := true |} ];
     timers := [];
     errors := [] |}.

(** The reading of "a second click restarts the pending timer": for
    2000 ms after the later of two clicks on a button nothing is
    restored on it. *)
Definition restart_on_click : Prop :=
  ∀ (s : state) (i : nat) (ok1 ok2 : bool) (d1 d2 : N) (b : button),
    buttons s !! i = Some b → hasCode b = true → quiet i s →
    d1 < 2000 → d2 < 2000 →
    let s2 := click i ok2 (advance d1 (click i ok1 s)) in
    buttons (advance d2 s2) !! i = buttons s2 !! i.

End Copy.

(** ** JSON values and the JavaScript operations applied to them *)

Inductive error :=
| TypeError
| SyntaxError
| NetworkFailure
| QuotaExceeded
| Error (message : string).

Inductive result (A : Type) :=
| Ok (a : A)
| Throw (e : error).
Arguments Ok {A} a.
Arguments Throw {A} e.

#[warnings="-register-all"]
Inductive json :=
| JNull
| JNum (n : Z)
| JObj (fields : gmap string json).

(** A JavaScript value: [None] is [undefined]. *)
Abbreviation value := (option json).

(** An object literal [{ k1: v1, k2: v2 }].  A property whose value is
    [undefined] reads as [undefined] and is left out by [JSON.stringify],
    exactly as an absent one, so it is not recorded. *)
Definition object (props : list (string * value)) : json :=
  JObj (list_to_map (omap (fun kv => pair (fst kv) <$> snd kv) props)).

(** Property access [v.name]: a [TypeError] on [undefined] and [null],
    [undefined] on a number, the property or [undefined] on an object. *)
Definition get (name : string) (v : value) : result value :=
  match v with
  | None | Some JNull => Throw TypeError
  | Some (JNum _) => Ok None
  | Some (JObj fields) => Ok (fields !! name)
  end.

(** An object converts to a primitive through [Object.prototype.toString]
    unless a property of its own shadows that method with a JSON value,
    which cannot be called. *)
Definition shadows_toString (fields : gmap string json) : bool :=
  bool_decide (is_Some (fields !! "toString")).

(** [ToNumber]: [None] is [NaN]. *)
Definition toNumber (v : value) : result (option Z) :=
  match v with
  | None => Ok None
  | Some JNull => Ok (Some 0%Z)
  | Some (JNum n) => Ok (Some n)
  | Some (JObj fields) =>
      if shadows_toString fields then Throw TypeError else Ok None
  end.

(** ** Number formatting ([formatNumber], lines 285-293) *)

Section Binary64.

Local Open Scope Z_scope.

Definition prec : Z := 53.
Definition emax : Z := 1024.

(** The double nearest to an integer. *)
Definition of_Z (n : Z) : spec_float := binary_normalize prec emax n 0 false.

(** [a / b] on the doubles of two integers. *)
Definition fdiv (a b : Z) : spec_float := SFdiv prec emax (of_Z a) (of_Z b).

(** The integer [t] for which [t / 10] is closest to [m * 2^e], the
    larger one of two equally close: step 8 of [Number.prototype.toFixed]
    with one fraction digit. *)
Definition tenths (m : positive) (e : Z) : Z :=
  if 0 <=? e
  then 10 * Zpos m * 2 ^ e
  else (20 * Zpos m + 2 ^ (- e)) / 2 ^ (1 - e).

(** The text of [t / 10] with one fraction digit. *)
Definition one_decimal (t : Z) : string :=
  pretty (t / 10) +:+ "." +:+ pretty (t mod 10).

(** [x.toFixed(1)] below 10^21, where the digits are written out in
    full (quotients of integers up to 2^53 by 1000 stay far below). *)
Definition toFixed1 (x : spec_float) : string :=
  match x with
  | S754_nan => "NaN"
  | S754_infinity s => if s then "-Infinity" else "Infinity"
  | S754_zero _ => "0.0"
  | S754_finite s m e =>
      (if s then "-" else "") +:+ one_decimal (tenths m e)
  end.

(** [n.toString()] for an integer the double holds exactly. *)
Definition Number_toString (n : Z) : string := pretty n.

Definition formatNumber (num : value) : result string :=
  match num with
  | Some (JNum n) =>
      if 1000000 <=? n then Ok (toFixed1 (fdiv n 1000000) +:+ "M")
      else if 1000 <=? n then Ok (toFixed1 (fdiv n 1000) +:+ "k")
      else Ok (Number_toString n)
  | Some (JObj fields) =>
      (* both comparisons convert the object to a number first *)
      if shadows_toString fields then Throw TypeError
      else Ok "[object Object]"
  | None | Some JNull =>
      (* both comparisons are false; [toString] of neither exists *)
      Throw TypeError
  end.

(** What a double stands for, as a rational. *)
Definition to_Q (x : spec_float) : Q :=
  match x with
  | S754_finite s m e =>
      let v := if 0 <=? e then inject_Z (Zpos m * 2 ^ e)
               else Qmake (Zpos m) (Z.to_pos (2 ^ (- e))) in
      if s then Qopp v else v
  | _ => 0%Q
  end.

(** A normal mantissa. *)
Definition normal (m : positive) : Prop := 2 ^ 52 <= Zpos m < 2 ^ 53.

(** [t / 10] is [x] rounded to one decimal, a half rounding up. *)
Definition rounds_to_tenths (x : spec_float) (t : Z) : Prop :=
  (inject_Z t - (1 # 2) <= 10 * to_Q x)%Q ∧ (10 * to_Q x < inject_Z t + (1 # 2))%Q.

End Binary64.

(** ** Smooth anchor scrolling ([setupSmoothScroll], lines 217-245) *)

Module Anchor.

(** [a + b] and [a - b] on doubles. *)
Definition fadd (x y : spec_float) : spec_float := SFadd prec emax x y.
Definition fsub (x y : spec_float) : spec_float := SFsub prec emax x y.

(** The part of the browser the click listener touches: the scroll
    offset, the [top] handed to [scrollTo] by the last call of it (the
    destination of the smooth scroll then under way), and the session
    history as the entries behind the current one, the current URL
    fragment, and the entries ahead of it. *)
Record browser := mkBrowser {
  scrollY : spec_float;
  scrollTarget : option spec_float;
  back : list string;
  fragment : string;
  forward : list string;
  hasPushState : bool
}.

Definition history_length (b : browser) : nat :=
  length (back b) + 1 + length (forward b).

(** [history.pushState(null, null, url)] for a fragment-only [url]:
    the entries ahead are dropped, the current entry moves behind a new
    one carrying [url]; no navigation, no scroll. *)
Definition pushState (url : string) (b : browser) : browser :=
  {| scrollY := scrollY b;
     scrollTarget := scrollTarget b;
     back := back b ++ [ fragment b ];
     fragment := url;
     forward := [];
     hasPushState := hasPushState b |}.

(** [window.scrollTo({ top, behavior: 'smooth' })] starts an animation
    towards [top]; the offset itself is not written by the call. *)
Definition scrollTo (top : spec_float) (b : browser) : browser :=
  {| scrollY := scrollY b;
     scrollTarget := Some top;
     back := back b;
     fragment := fragment b;
     forward := forward b;
     hasPushState := hasPushState b |}.

(** *** [document.querySelector]

    The listener hands the [href] itself to [document.querySelector], so
    the [href] is read as a CSS selector, not as an element id.  The
    selectors parsed here are the compound selectors written with ASCII
    letters, digits, [_], [-], [#] and [.]: a sequence of id selectors
    [#name] and class selectors [.name].  Over that alphabet the parse is
    complete, names that start with two hyphens apart: a string that is
    not such a sequence is not a selector and [querySelector] throws a
    [SyntaxError].  For any other string (combinators, attribute
    selectors, pseudo-classes, escapes, characters outside ASCII, names
    that start with two hyphens) the answer is the browser's own, a field
    of the document. *)

(** An element as the listener sees it: its [id] attribute (empty when
    it has none), the tokens of its [class] attribute, and the [top] of
    its bounding rectangle at the time of the click. *)
Record element := mkElement {
  elem_id : string;
  elem_classes : list string;
  elem_top : spec_float
}.

(** The elements in tree order, and the answers of the selector engine
    for the selectors not parsed here. *)
Record document := mkDocument {
  elements : list element;
  other_selectors : string → result (option element)
}.

Definition letter (c : ascii) : bool :=
  let n := nat_of_ascii c in
  (Nat.leb 65 n && Nat.leb n 90) || (Nat.leb 97 n && Nat.leb n 122).

Definition digit (c : ascii) : bool :=
  let n := nat_of_ascii c in Nat.leb 48 n && Nat.leb n 57.

(** The characters that start a name, and those that continue one. *)
Definition name_start (c : ascii) : bool := letter c || Ascii.eqb c "_"%char.
Definition name_char (c : ascii) : bool := name_start c || digit c || Ascii.eqb c "-"%char.

Definition in_alphabet (c : ascii) : bool :=
  name_char c || Ascii.eqb c "#"%char || Ascii.eqb c "."%char.

(** Whether a run of name characters is an identifier: it starts with a
    letter or [_], or with [-] followed by a letter or [_].  A run that
    starts with a digit, or with [-] and a digit, is a number to the
    tokenizer, and [-] alone is a delimiter. *)
Definition starts_ident (run : string) : bool :=
  match run with
  | String c rest =>
      name_start c ||
      (Ascii.eqb c "-"%char &&
       match rest with
       | String d _ => name_start d
       | EmptyString => false
       end)
  | EmptyString => false
  end.

(** A run that starts with two hyphens is an identifier since CSS custom
    properties and was none before; selector engines differ on it. *)
Definition double_hyphen (run : string) : bool :=
  match run with
  | String c (String d _) => Ascii.eqb c "-"%char && Ascii.eqb d "-"%char
  | _ => false
  end.

(** The leading run of name characters of a string, then each other
    character with the run of name characters that follows it. *)
Fixpoint split (s : string) : string * list (ascii * string) :=
  match s with
  | EmptyString => (EmptyString, [])
  | String c rest =>
      let (run, segments) := split rest in
      if name_char c then (String c run, segments)
      else (EmptyString, (c, run) :: segments)
  end.

Inductive simple :=
| ById (name : string)
| ByClass (name : string).

Inductive parsed :=
| Compound (selectors : list simple)
| Invalid
| Unparsed.

Definition to_simple (segment : ascii * string) : simple :=
  if Ascii.eqb (fst segment) "#"%char then ById (snd segment) else ByClass (snd segment).

Definition parse (selector : string) : parsed :=
  match selector with
  | String "#"%char _ =>
      let segments := snd (split selector) in
      if forallb in_alphabet (list_ascii_of_string selector)
         && negb (existsb (fun segment => double_hyphen (snd segment)) segments)
      then
        if forallb (fun segment => starts_ident (snd segment)) segments
        then Compound (map to_simple segments)
        else Invalid
      else Unparsed
  | _ => Unparsed
  end.

(** Ids and classes are compared exactly, as in a document that is not
    in quirks mode. *)
Definition matches (el : element) (s : simple) : bool :=
  match s with
  | ById name => String.eqb (elem_id el) name
  | ByClass name => existsb (String.eqb name) (elem_classes el)
  end.

(** The first element, in tree order, that matches every part of the
    compound selector. *)
Definition querySelector (doc : document) (selector : string) : result (option element) :=
  match parse selector with
  | Compound selectors =>
      Ok (find (fun el => forallb (matches el) selectors) (elements doc))
  | Invalid => Throw SyntaxError
  | Unparsed => other_selectors doc selector
  end.

Definition headerOffset : Z := 80.

(** What a run of the listener leaves: the browser, [e.defaultPrevented],
    and the exception it ended with, if any. *)
Record outcome := mkOutcome {
  page : browser;
  defaultPrevented : bool;
  thrown : option error
}.

(** The click listener of a link; [href] is the link's attribute, which
    starts with a hash for the links the listener is attached to. *)
Definition click (href : string) (doc : document) (b : browser) : outcome :=
  let targetId := href in
  if String.eqb targetId "#"
  then {| page := b; defaultPrevented := false; thrown := None |}
  else
    match querySelector doc targetId with
    | Throw err => {| page := b; defaultPrevented := false; thrown := Some err |}
    | Ok None => {| page := b; defaultPrevented := false; thrown := None |}
    | Ok (Some targetElement) =>
        let elementPosition := elem_top targetElement in
        let offsetPosition :=
          fsub (fadd elementPosition (scrollY b)) (of_Z headerOffset) in
        let b1 := scrollTo offsetPosition b in
        let b2 := if hasPushState b1 then pushState targetId b1 else b1 in
        {| page := b2; defaultPrevented := true; thrown := None |}
    end.


(** A document of the elements [els] in which no selector outside the
    parsed ones finds anything. *)
Definition document_of (els : list element) : document :=
  {| elements := els; other_selectors := fun _ => Ok None |}.

(** A page scrolled to 120px with one section, 640px below the top of
    the viewport, and a fresh session history. *)
Definition features : element :=
  {| elem_id := "features"; elem_classes := []; elem_top := of_Z 640 |}.

Definition doc0 : document := document_of [ features ].

Definition browser0 : browser :=
  {| scrollY := of_Z 120; scrollTarget := None;
     back := []; fragment := ""; forward := [];
     hasPushState := true |}.

(** A section with id [sec] and class [one]; a section whose id is
    [sec.one]; a section whose id is [1abc]. *)
Definition sec_one : element :=
  {| elem_id := "sec"; elem_classes := [ "one" ]; elem_top := of_Z 640 |}.

Definition sec_dot_one : element :=
  {| elem_id := "sec.one"; elem_classes := []; elem_top := of_Z 640 |}.

Definition one_abc : element :=
  {| elem_id := "1abc"; elem_classes := []; elem_top := of_Z 640 |}.


(** The reading of "the fragment is updated without a new history
    entry". *)
Definition no_history_entry : Prop :=
  ∀ (href : string) (doc : document) (b : browser) (el : element),
    href ≠ "#"%string → querySelector doc href = Ok (Some el) →
    let b' := page (click href doc b) in
    fragment b' = href ∧ history_length b' = history_length b.

End Anchor.

(** ** Statistics badges (lines 299-393) *)

Module Stats.

Local Open Scope Z_scope.

(** A string held by [sessionStorage], up to what the code can tell:
    the empty string (which [if (cached)] skips), a text [JSON.parse]
    rejects, or a text [JSON.parse] reads as a value. *)
Inductive item :=
| Empty
| Garbage
| Text (j : json).

(** Session storage, the badge elements by their [data-stat] name with
    their text (a name is present when [document.querySelector] finds an
    element for it), the URLs requested with [fetch], and the lines
    written with [console.error]. *)
Record world := mkWorld {
  storage : gmap string item;
  badges : gmap string string;
  requests : list string;
  errors : list string
}.

Inductive reply :=
| Unreachable
| Response (ok : bool) (body : option json).

(** What the browser supplies during one call: the clock at the cache
    check, the answer to the request, the clock when the answer is
    cached, and whether [setItem] finds the quota exhausted. *)
Record env := mkEnv {
  now : Z;
  answer : reply;
  now_stored : Z;
  storage_full : bool
}.

(** Code that reads and writes the world and may throw; what was
    written before a throw stays written. *)
Definition M (A : Type) : Type := world → result A * world.

Definition ret {A} (a : A) : M A := fun w => (Ok a, w).
Definition throw {A} (e : error) : M A := fun w => (Throw e, w).
Definition lift {A} (r : result A) : M A := fun w => (r, w).
Definition bind {A B} (c : M A) (k : A → M B) : M B :=
  fun w => match c w with
           | (Ok a, w') => k a w'
           | (Throw e, w') => (Throw e, w')
           end.
Definition try_catch {A} (body : M A) (handler : error → M A) : M A :=
  fun w => match body w with
           | (Ok a, w') => (Ok a, w')
           | (Throw e, w') => handler e w'
           end.

#[export] Instance M_bind : MBind M := fun A B k c => bind c k.

Definition getItem (key : string) : M (option item) :=
  fun w => (Ok (storage w !! key), w).

Definition setItem (full : bool) (key : string) (v : item) : M unit :=
  fun w =>
    if full then (Throw QuotaExceeded, w)
    else (Ok tt, {| storage := <[ key := v ]> (storage w);
                    badges := badges w;
                    requests := requests w;
                    errors := errors w |}).

Definition JSON_parse (i : item) : result json :=
  match i with
  | Text j => Ok j
  | Empty | Garbage => Throw SyntaxError
  end.

Definition JSON_stringify (j : json) : item := Text j.

(** [fetch(url)]: the request goes out, then the promise settles. *)
Definition fetch (e : env) (url : string) : M reply :=
  fun w =>
    let w' := {| storage := storage w;
                 badges := badges w;
                 requests := requests w ++ [ url ];
                 errors := errors w |} in
    match answer e with
    | Unreachable => (Throw NetworkFailure, w')
    | r => (Ok r, w')
    end.

Definition response_ok (r : reply) : bool :=
  match r with
  | Response ok _ => ok
  | Unreachable => false
  end.

(** [response.json()]. *)
Definition response_json (r : reply) : result json :=
  match r with
  | Response _ (Some j) => Ok j
  | _ => Throw SyntaxError
  end.

Definition console_error (line : string) : M unit :=
  fun w => (Ok tt, {| storage := storage w;
                      badges := badges w;
                      requests := requests w;
                      errors := errors w ++ [ line ] |}).

(** [document.querySelector('[data-stat=...]')] as a truth value. *)
Definition querySelector (stat : string) : M bool :=
  fun w => (Ok (bool_decide (is_Some (badges w !! stat))), w).

Definition set_textContent (stat text : string) : M unit :=
  fun w => (Ok tt, {| storage := storage w;
                      badges := <[ stat := text ]> (badges w);
                      requests := requests w;
                      errors := errors w |}).

Definition cacheTTL : Z := 5 * 60 * 1000.

(** [const { data, timestamp } = JSON.parse(cached)] followed by the
    test [Date.now() - timestamp < cacheTTL]. *)
Definition fresh (e : env) (timestamp : value) : result bool :=
  match toNumber timestamp with
  | Ok (Some t) => Ok (now e - t <? cacheTTL)
  | Ok None => Ok false
  | Throw err => Throw err
  end.

(** [v !== null ? formatNumber(v) : dash]. *)
Definition dash : string := "—".

Definition display (v : value) : result string :=
  match v with
  | Some JNull => Ok dash
  | _ => formatNumber v
  end.

Definition updateGitHubUI (stats : value) : M unit :=
  starsEl ← querySelector "github-stars";
  forksEl ← querySelector "github-forks";
  (if starsEl : bool then
     stars ← lift (get "stars" stats);
     text ← lift (display stars);
     set_textContent "github-stars" text
   else ret tt) ;;
  (if forksEl : bool then
     forks ← lift (get "forks" stats);
     text ← lift (display forks);
     set_textContent "github-forks" text
   else ret tt).

(** Lines 315-330: the request, the cache write, the rendering. *)
Definition refreshGitHubStats (e : env) (cacheKey : string) : M unit :=
  response ← fetch e "https://api.github.com/repos/Yeachan-Heo/oh-my-codex";
  if negb (response_ok response) then throw (Error "GitHub API failed")
  else
    data ← lift (response_json response);
    stargazers_count ← lift (get "stargazers_count" (Some data));
    forks_count ← lift (get "forks_count" (Some data));
    let stats := object [ ("stars", stargazers_count);
                          ("forks", forks_count) ] in
    setItem (storage_full e) cacheKey
      (JSON_stringify (object [ ("data", Some stats);
                                ("timestamp", Some (JNum (now_stored e))) ])) ;;
    updateGitHubUI (Some stats).

(** Lines 332-333: the [catch] block. *)
Definition failedGitHubStats : M unit :=
  console_error "[OMX] Failed to fetch GitHub stats:" ;;
  updateGitHubUI (Some (object [ ("stars", Some JNull);
                                 ("forks", Some JNull) ])).

Definition fetchGitHubStats (e : env) : M unit :=
  let cacheKey := "omx-github-stats" in
  try_catch
    (cached ← getItem cacheKey;
     hit ← match cached with
           | None | Some Empty => ret false
           | Some i =>
               parsed ← lift (JSON_parse i);
               data ← lift (get "data" (Some parsed));
               timestamp ← lift (get "timestamp" (Some parsed));
               young ← lift (fresh e timestamp);
               if young : bool
               then (updateGitHubUI data ;; ret true)
               else ret false
           end;
     if hit : bool then ret tt
     else refreshGitHubStats e cacheKey)
    (fun err => failedGitHubStats).

Definition updateNpmUI (downloads : value) : M unit :=
  downloadsEl ← querySelector "npm-downloads";
  if downloadsEl : bool then
    text ← lift (display downloads);
    set_textContent "npm-downloads" text
  else ret tt.

(** Lines 369-381: the request, the cache write, the rendering. *)
Definition refreshNpmDownloads (e : env) (cacheKey : string) : M unit :=
  response ← fetch e "https://api.npmjs.org/downloads/point/last-month/oh-my-codex";
  if negb (response_ok response) then throw (Error "npm API failed")
  else
    data ← lift (response_json response);
    downloads ← lift (get "downloads" (Some data));
    setItem (storage_full e) cacheKey
      (JSON_stringify (object [ ("data", downloads);
                                ("timestamp", Some (JNum (now_stored e))) ])) ;;
    updateNpmUI downloads.

(** Lines 383-384: the [catch] block. *)
Definition failedNpmDownloads : M unit :=
  console_error "[OMX] Failed to fetch npm downloads:" ;;
  updateNpmUI (Some JNull).

Definition fetchNpmDownloads (e : env) : M unit :=
  let cacheKey := "omx-npm-downloads" in
  try_catch
    (cached ← getItem cacheKey;
     hit ← match cached with
           | None | Some Empty => ret false
           | Some i =>
               parsed ← lift (JSON_parse i);
               data ← lift (get "data" (Some parsed));
               timestamp ← lift (get "timestamp" (Some parsed));
               young ← lift (fresh e timestamp);
               if young : bool
               then (updateNpmUI data ;; ret true)
               else ret false
           end;
     if hit : bool then ret tt
     else refreshNpmDownloads e cacheKey)
    (fun err => failedNpmDownloads).

(** The cache record [{ data, timestamp }] as stored. *)
Definition entry (data : value) (timestamp : Z) : item :=
  JSON_stringify (object [ ("data", data); ("timestamp", Some (JNum timestamp)) ]).

(** The badges after [text] is written into the one named [stat], if the
    page has it. *)
Definition show (stat text : string) (bs : gmap string string) : gmap string string :=
  if bool_decide (is_Some (bs !! stat)) then <[ stat := text ]> bs else bs.

Definition with_badges (bs : gmap string string) (w : world) : world :=
  {| storage := storage w; badges := bs; requests := requests w; errors := errors w |}.

(** No usable cache record under [key]: none at all, or one that is
    [cacheTTL] old or older. *)
Definition misses (key : string) (e : env) (w : world) : Prop :=
  storage w !! key = None ∨
  ∃ (data : value) (timestamp : Z),
    storage w !! key = Some (entry data timestamp) ∧ cacheTTL <= now e - timestamp.


(** Frames: the badges of the page stay on the page, and on top of that
    rendering leaves storage, requests and console alone ([ui_frame]), the
    [try] block leaves the console alone ([try_frame]), and what follows
    the request issues no other ([request_frame]); [storage_frame] is
    for the calls that do not reach the cache write. *)
Definition badges_stay (w w' : world) : Prop :=
  ∀ stat, is_Some (badges w !! stat) → is_Some (badges w' !! stat).

Definition ui_frame (w w' : world) : Prop :=
  storage w' = storage w ∧ requests w' = requests w ∧ errors w' = errors w ∧
  badges_stay w w'.

Definition try_frame (w w' : world) : Prop :=
  errors w' = errors w ∧ badges_stay w w'.

Definition request_frame (w w' : world) : Prop :=
  requests w' = requests w.

Definition storage_frame (w w' : world) : Prop :=
  storage w' = storage w.

(** The world once a request for [url] has gone out. *)
Definition requested (url : string) (w : world) : world :=
  {| storage := storage w; badges := badges w;
     requests := requests w ++ [ url ]; errors := errors w |}.

(** [c] keeps [R] between the world it starts in and the one it ends
    in, whether it returns or throws. *)
Definition keeps (R : world → world → Prop) {A : Type} (c : M A) : Prop :=
  ∀ w, R w (snd (c w)).



(** A page with the three badges and an empty cache. *)
Definition world0 : world :=
  {| storage := ∅;
     badges := {[ "github-stars" := "0"; "github-forks" := "0";
                  "npm-downloads" := "0" ]};
     requests := [];
     errors := [] |}.

(** The same page with both records cached at time [t]: 1500 stars,
    999 forks, 2500000 downloads. *)
Definition world_cached (t : Z) : world :=
  {| storage :=
       {[ "omx-github-stats" :=
            entry (Some (object [ ("stars", Some (JNum 1500));
                                  ("forks", Some (JNum 999)) ])) t;
          "omx-npm-downloads" := entry (Some (JNum 2500000)) t ]};
     badges := badges world0;
     requests := [];
     errors := [] |}.

(** A call at [t] milliseconds that gets no answer. *)
Definition env_offline (t : Z) : env :=
  {| now := t; answer := Unreachable; now_stored := t; storage_full := false |}.

(** A call that is answered with status 200 and the body [{}]. *)
Definition env_empty_object : env :=
  {| now := 1000; answer := Response true (Some (JObj ∅));
     now_stored := 1001; storage_full := false |}.

End Stats.

(** ** The scroll listener and its frame throttle (lines 80-90) *)

Module Throttle.

(** The flag [ticking], the callbacks handed to [requestAnimationFrame]
    and not yet run (all of them the same closure, so their number), and
    the page [handleNavScroll] works on. *)
Record throttled := mkThrottled {
  ticking : bool;
  frames : nat;
  view : Nav.page
}.

(** A [scroll] event, and a rendered frame, at which [window.scrollY]
    reads [scrollY]. *)
Inductive event :=
| Scroll
| Frame (scrollY : Q).

(** The frame callback of lines 84-87. *)
Definition callback (scrollY : Q) (t : throttled) : throttled :=
  {| ticking := false;
     frames := frames t;
     view := Nav.handleNavScroll scrollY (view t) |}.

Definition step (e : event) (t : throttled) : throttled :=
  match e with
  | Scroll =>
      if ticking t then t
      else {| ticking := true; frames := S (frames t); view := view t |}
  | Frame scrollY =>
      let t' := Nat.iter (frames t) (callback scrollY) t in
      {| ticking := ticking t'; frames := 0; view := view t' |}
  end.

Definition run (es : list event) (t : throttled) : throttled :=
  fold_left (fun t e => step e t) es t.

(** The listener as [setupFixedNav] leaves it. *)
Definition attach (p : Nav.page) : throttled :=
  {| ticking := false; frames := 0; view := p |}.

(** The throttle's invariant: a frame callback is queued exactly while
    [ticking] is set, and never more than one. *)
Definition balanced (t : throttled) : Prop :=
  frames t = if ticking t then 1%nat else 0%nat.

End Throttle.

(** ** More on the mobile menu *)

Module MenuMore.

Import Menu.

(** A menu whose overlay, if any, is styled like its links. *)
Definition menu1 : menu :=
  {| app := AppState_init; navLinks := {[ "nav__links" ]};
     hamburger := {[ "nav__hamburger" ]};
     overlay := Some {[ "nav__overlay" ]}; bodyOverflow := "" |}.

End MenuMore.

(** ** More on the copy buttons *)

Module CopyMore.

Import Copy.

(** The rejected clipboard writes of a trace, given which buttons have a
    code block: the clicks that reach the [catch] block of line 202. *)
Definition rejected (codes : list bool) (es : list event) : nat :=
  length (List.filter (fun e => match e with
                                | Click i false => bool_decide (codes !! i = Some true)
                                | _ => false
                                end) es).

(** A page with two buttons, the second without a code block. *)
Definition page2 : state :=
  {| now := 0;
     buttons := [ {| textContent := "Copy"; classList := ∅; hasCode := true |};
                  {| textContent := "Copy"; classList := ∅; hasCode := false |} ];
     timers := [];
     errors := [] |}.

End CopyMore.

(** ** More on anchor scrolling *)

Module AnchorMore.

Import Anchor.

(** Clicks in a row, each with the link's [href] and the document as it
    stands at that click. *)
Definition clicks (hs : list (string * document)) (b : browser) : browser :=
  fold_left (fun b h => page (click (fst h) (snd h) b)) hs b.

(** A click that reaches line 228: not the bare hash, and the selector
    finds an element. *)
Definition scrolls (h : string * document) : Prop :=
  fst h ≠ "#" ∧ ∃ el : element, querySelector (snd h) (fst h) = Ok (Some el).

(** The session history up to and including the current entry. *)
Definition trail (b : browser) : list string := back b ++ [ fragment b ].

End AnchorMore.

(** ** Scroll reveal ([setupScrollReveal], lines 46-70) *)

Module Reveal.

(** An element of the [querySelectorAll] snapshot: its class list, and
    whether the observer created at line 60 is observing it. *)
Record element := mkElement {
  classes : gset string;
  observed : bool
}.

(** [setupScrollReveal] on the class lists of the matched elements;
    [supported] is the test ['IntersectionObserver' in window]. *)
Definition setupScrollReveal (supported : bool) (revealElements : list (gset string))
  : list element :=
  if negb supported
  then map (fun cl => {| classes := classList_add "revealed" cl; observed := false |})
           revealElements
  else map (fun cl => {| classes := cl; observed := true |}) revealElements.

(** One entry handed to the observer's callback: the target, by its
    place in the snapshot, and [isIntersecting]. *)
Definition entry : Type := nat * bool.

(** The body of the [forEach] of lines 61-66. *)
Definition on_entry (en : entry) (els : list element) : list element :=
  let '(target, isIntersecting) := en in
  if isIntersecting
  then match els !! target with
       | Some el =>
           <[ target := {| classes := classList_add "revealed" (classes el);
                           observed := false |} ]> els
       | None => els
       end
  else els.

(** One call of the observer's callback. *)
Definition callback (entries : list entry) (els : list element) : list element :=
  fold_left (fun els en => on_entry en els) entries els.

(** Any number of calls. *)
Definition deliver (calls : list (list entry)) (els : list element) : list element :=
  fold_left (fun els entries => callback entries els) calls els.

Definition revealed (el : element) : Prop := "revealed" ∈ classes el.

(** What lines 63-64 make of an element. *)
Definition mark (el : element) : element :=
  {| classes := classList_add "revealed" (classes el); observed := false |}.

(** Whether some call reports the element at place [i] as intersecting. *)
Definition reports (i : nat) (entries : list entry) : bool :=
  existsb (fun en => bool_decide (fst en = i) && snd en) entries.

Definition reported (i : nat) (calls : list (list entry)) : bool :=
  existsb (reports i) calls.

End Reveal.

(** ** Page loader ([hidePageLoader], lines 251-259) *)

Module Loader.

Local Open Scope N_scope.

(** The two timeout callbacks: the outer one of lines 254-257 and the
    inner one of line 256. *)
Inductive callback :=
| Hide
| Remove.

(** The clock, the loader overlay while it is in the document (with its
    class list), and the pending timeouts with their due times. *)
Record page := mkPage {
  now : N;
  loader : option (gset string);
  timers : list (N * callback)
}.

Definition hidePageLoader (p : page) : page :=
  match loader p with
  | Some _ => {| now := now p; loader := loader p;
                 timers := timers p ++ [ (now p + 100, Hide) ] |}
  | None => p
  end.

(** A callback running at time [t]: the outer one marks the overlay and
    sets the inner timeout, 300 ms from when it runs; the inner one
    takes the overlay out of the document. *)
Definition fire (t : N) (c : callback) (p : page) : page :=
  match c with
  | Hide => {| now := now p;
               loader := classList_add "hidden" <$> loader p;
               timers := timers p ++ [ (t + 300, Remove) ] |}
  | Remove => {| now := now p; loader := None; timers := timers p |}
  end.

(** The timeouts in the queue that are due by [t'] run, each at its due
    time, and leave the queue; those they set stay for the next pass. *)
Definition pass (t' : N) (p : page) : page :=
  fold_left (fun p tc => fire (fst tc) (snd tc) p)
            (List.filter (fun tc => fst tc <=? t') (timers p))
            {| now := now p; loader := loader p;
               timers := List.filter (fun tc => negb (fst tc <=? t')) (timers p) |}.

(** [d] milliseconds pass.  A timeout set by a callback can itself come
    due within the same wait; callbacks nest two deep, so two passes
    reach them all. *)
Definition advance (d : N) (p : page) : page :=
  let t' := now p + d in
  let p' := pass t' (pass t' p) in
  {| now := t'; loader := loader p'; timers := timers p' |}.

Definition waits (ds : list N) (p : page) : page :=
  fold_left (fun p d => advance d p) ds p.

(** The total of a list of waits. *)
Definition total (ds : list N) : N := fold_right N.add 0 ds.

(** A page at bootstrap, nothing pending. *)
Definition boot (t0 : N) (l : option (gset string)) : page :=
  {| now := t0; loader := l; timers := [] |}.

(** The page [e] milliseconds after [hidePageLoader] ran at [t0] on an
    overlay with classes [cl], as the properties below establish. *)
Definition phase (t0 : N) (cl : gset string) (e : N) : page :=
  if e <? 100 then
    {| now := t0 + e; loader := Some cl; timers := [ (t0 + 100, Hide) ] |}
  else if e <? 400 then
    {| now := t0 + e; loader := Some (classList_add "hidden" cl);
       timers := [ (t0 + 100 + 300, Remove) ] |}
  else
    {| now := t0 + e; loader := None; timers := [] |}.

End Loader.

(** ** More on the statistics badges *)

Module StatsMore.

Import Stats.
Local Open Scope Z_scope.

(** What a fetcher with cache key [key] and badges [stats] may do to the
    world: leave the storage as it is or write one well-formed record
    under [key]; leave every badge that is not its own as it is. *)
Definition own (key : string) (stats : list string) (w w' : world) : Prop :=
  (storage w' = storage w ∨
   ∃ (data : value) (timestamp : Z),
     storage w' = <[ key := entry data timestamp ]> (storage w)) ∧
  (∀ stat, stat ∉ stats → badges w' !! stat = badges w !! stat).

(** The storage holds nothing under [key], or a well-formed record. *)
Definition well_formed (key : string) (w : world) : Prop :=
  storage w !! key = None ∨
  ∃ (data : value) (timestamp : Z), storage w !! key = Some (entry data timestamp).

(** A record that cannot be read: a text that is not JSON, or the JSON
    text [null]. *)
Definition corrupt (key : string) (w : world) : Prop :=
  storage w !! key = Some Garbage ∨ storage w !! key = Some (Text JNull).

(** A record without a usable timestamp: the empty string, or a JSON
    text whose [timestamp] converts to [NaN] (a bare number, an object
    with no [timestamp]). *)
Definition undated (key : string) (w : world) : Prop :=
  storage w !! key = Some Empty ∨
  ∃ (j : json) (timestamp : value),
    storage w !! key = Some (Text j) ∧
    get "timestamp" (Some j) = Ok timestamp ∧ toNumber timestamp = Ok None.

(** The two fetchers, and a session of calls of them. *)
Inductive fetcher := GitHub | Npm.

Definition call (f : fetcher) (e : env) : M unit :=
  match f with
  | GitHub => fetchGitHubStats e
  | Npm => fetchNpmDownloads e
  end.

Definition session (calls : list (fetcher * env)) (w : world) : world :=
  fold_left (fun w c => snd (call (fst c) (snd c) w)) calls w.

(** Calls of a fetcher in a row, one for each of [envs]. *)
Definition repeatedly (fetcher : env → M unit) (envs : list env) (w : world) : world :=
  fold_left (fun w e => snd (fetcher e w)) envs w.

(** An answer with status 200 and the counts of the worlds above. *)
Definition env_github (t : Z) : env :=
  {| now := t;
     answer := Response true
                 (Some (object [ ("stargazers_count", Some (JNum 1500));
                                 ("forks_count", Some (JNum 999)) ]));
     now_stored := t + 80;
     storage_full := false |}.

(** The same answer with the storage quota exhausted. *)
Definition env_github_full (t : Z) : env :=
  {| now := t;
     answer := answer (env_github t);
     now_stored := t + 80;
     storage_full := true |}.

(** A page whose GitHub record is not JSON. *)
Definition world_corrupt : world :=
  {| storage := {[ "omx-github-stats" := Garbage ]};
     badges := badges world0;
     requests := [];
     errors := [] |}.

(** A page whose GitHub record is the text of a bare number. *)
Definition world_undated : world :=
  {| storage := {[ "omx-github-stats" := Text (JNum 7) ]};
     badges := badges world0;
     requests := [];
     errors := [] |}.

Definition env_npm (t : Z) : env :=
  {| now := t;
     answer := Response true (Some (object [ ("downloads", Some (JNum 2500000)) ]));
     now_stored := t + 80;
     storage_full := false |}.

End StatsMore.

(** * Properties *)

(** ** Sticky navigation *)

Section NavFacts.

Import Nav.

Lemma js_gt_lt (a b : Q) : js_gt a b = true ↔ (b < a)%Q.
Proof.
  unfold js_gt. rewrite negb_true_iff, <- not_true_iff_false, Qle_bool_iff.
  split; [apply Qnot_le_lt | apply Qlt_not_le].
Qed.

Lemma downward_test (prev curr : Q) :
  (js_gt curr prev && js_gt curr 100 = true) ↔ downward prev curr.
Proof.
  unfold downward. rewrite andb_true_iff, !js_gt_lt. tauto.
Qed.

Lemma handleNavScroll_down (curr : Q) (p : page) :
  downward (lastScrollY (app p)) curr →
  scrollDirection (app (handleNavScroll curr p)) = Down ∧
  "hidden" ∈ nav (handleNavScroll curr p) ∧
  navVisible (app (handleNavScroll curr p)) = false.
Proof.
  intros Hd. apply downward_test in Hd.
  unfold handleNavScroll. rewrite Hd. cbn.
  repeat split. unfold classList_add.
  rewrite elem_of_union, elem_of_singleton. tauto.
Qed.

Lemma handleNavScroll_up (curr : Q) (p : page) :
  ¬ downward (lastScrollY (app p)) curr →
  scrollDirection (app (handleNavScroll curr p)) = Up ∧
  ("hidden" ∉ nav (handleNavScroll curr p)) ∧
  navVisible (app (handleNavScroll curr p)) = true.
Proof.
  intros Hd. rewrite <- downward_test, not_true_iff_false in Hd.
  unfold handleNavScroll. rewrite Hd. cbn.
  repeat split. unfold classList_remove.
  rewrite elem_of_difference, elem_of_singleton. tauto.
Qed.

Lemma handleNavScroll_last (curr : Q) (p : page) :
  lastScrollY (app (handleNavScroll curr p)) = curr.
Proof.
  unfold handleNavScroll.
  destruct (js_gt curr (lastScrollY (app p)) && js_gt curr 100); reflexivity.
Qed.

Lemma downward_dec (prev curr : Q) : downward prev curr ∨ ¬ downward prev curr.
Proof.
  rewrite <- downward_test.
  destruct (js_gt curr prev && js_gt curr 100); [left | right]; congruence.
Qed.

(** C3. One update of the sticky navigation from the previous offset
    [prev] to the current offset [curr]: the direction is [Down], the
    bar carries [hidden] and [navVisible] is false exactly when
    [curr > prev] and [curr > 100]; in every other case the direction is
    [Up], [hidden] is off and [navVisible] is true, in particular at
    [curr = 100] whatever [prev] is; and [lastScrollY] is [curr]
    afterwards in both cases. *)
Theorem handleNavScroll_classifies (curr : Q) (p : page) :
  let prev := lastScrollY (app p) in
  let p' := handleNavScroll curr p in
  (scrollDirection (app p') = Down ↔ downward prev curr) ∧
  ("hidden" ∈ nav p' ↔ downward prev curr) ∧
  (navVisible (app p') = false ↔ downward prev curr) ∧
  (scrollDirection (app p') = Up ↔ ¬ downward prev curr) ∧
  (navVisible (app p') = true ↔ ¬ downward prev curr) ∧
  lastScrollY (app p') = curr ∧
  scrollDirection (app (handleNavScroll 100 p)) = Up ∧
  ("hidden" ∉ nav (handleNavScroll 100 p)) ∧
  navVisible (app (handleNavScroll 100 p)) = true.
Proof.
  intros prev p'. subst prev p'.
  assert (Hb : ¬ downward (lastScrollY (app p)) 100).
  { intros [_ H]. revert H. apply Qlt_irrefl. }
  pose proof (handleNavScroll_up 100 p Hb) as (Hb1 & Hb2 & Hb3).
  pose proof (handleNavScroll_last curr p) as Hl.
  destruct (downward_dec (lastScrollY (app p)) curr) as [Hd | Hd].
  - pose proof (handleNavScroll_down curr p Hd) as (H1 & H2 & H3).
    rewrite H1, H3. intuition congruence.
  - pose proof (handleNavScroll_up curr p Hd) as (H1 & H2 & H3).
    rewrite H1, H3. intuition congruence.
Qed.

End NavFacts.

(** ** Mobile menu *)

Section MenuFacts.

Import Menu.

Lemma phase_handle (e : event) (m : menu) :
  possible e m → phase_of (handle e m) = next e (phase_of m).
Proof.
  unfold possible, phase_of. intros Hp.
  destruct e as [ | | | key]; cbn.
  - unfold toggleMobileMenu. destruct (mobileMenuOpen (app m)); reflexivity.
  - destruct Hp as [o Ho]; [reflexivity |]. rewrite Ho. cbn.
    destruct (mobileMenuOpen (app m)); reflexivity.
  - destruct (mobileMenuOpen (app m)); reflexivity.
  - destruct (String.eqb key "Escape"), (mobileMenuOpen (app m)) eqn:E;
      cbn; rewrite ?E; reflexivity.
Qed.

Lemma overlay_handle (e : event) (m : menu) :
  is_Some (overlay (handle e m)) ↔ is_Some (overlay m).
Proof.
  assert (Hc : is_Some (overlay (closeMobileMenu m)) ↔ is_Some (overlay m))
    by (cbn; apply fmap_is_Some).
  assert (Ho : is_Some (overlay (openMobileMenu m)) ↔ is_Some (overlay m))
    by (cbn; apply fmap_is_Some).
  destruct e as [ | | | key]; cbn; try assumption.
  - unfold toggleMobileMenu. destruct (mobileMenuOpen (app m)); assumption.
  - destruct (overlay m) eqn:E; [assumption | rewrite E; reflexivity].
  - destruct (String.eqb key "Escape" && mobileMenuOpen (app m));
      [assumption | reflexivity].
Qed.

Lemma phase_run (es : list event) (m : menu) :
  (In OverlayClick es → is_Some (overlay m)) →
  phase_of (run es m) = fold_left (fun ph e => next e ph) es (phase_of m).
Proof.
  unfold run. revert m.
  induction es as [ | e es IH]; intros m Hov; cbn; [reflexivity |].
  rewrite IH.
  - rewrite phase_handle; [reflexivity |].
    intros ->. apply Hov. left. reflexivity.
  - intros Hin. apply overlay_handle, Hov. right. exact Hin.
Qed.

Lemma remove_absent (c : string) (cl : gset string) :
  c ∉ cl → classList_remove c cl = cl.
Proof.
  intros Hc. unfold classList_remove. apply set_eq. intros x.
  rewrite elem_of_difference, elem_of_singleton.
  split; [tauto |]. intros Hx. split; [exact Hx |].
  intros ->. contradiction.
Qed.

Lemma close_when_closed (m : menu) :
  consistent m → mobileMenuOpen (app m) = false → closeMobileMenu m = m.
Proof.
  intros [_ Hc] Hf. destruct (Hc Hf) as (Hl & Hh & Ho & Hb).
  destruct m as [a l h o b]. destruct a as [i d y v f].
  unfold active, closeMobileMenu, set_mobileMenuOpen in *. cbn in *.
  rewrite Hf, Hb, (remove_absent _ l Hl), (remove_absent _ h Hh).
  destruct o as [o | ]; cbn; [| reflexivity].
  rewrite (remove_absent _ o (Ho o eq_refl)). reflexivity.
Qed.

Lemma menu0_consistent : consistent menu0.
Proof.
  split; [split |].
  - intros H. discriminate H.
  - intros (H & _). contradict H. apply not_elem_of_empty.
  - intros _. unfold styled_closed, active. cbn.
    repeat split; try apply not_elem_of_empty. intros o H. discriminate H.
Qed.

(** C9. The mobile menu is a machine with the two states closed and
    open: it starts closed; from closed a click on the hamburger opens
    it; from open a click on the hamburger, on the overlay, on a
    navigation link, or the Escape key closes it; from closed a click
    on the overlay or a link, or the Escape key, leaves it closed, and
    leaves a consistently styled menu exactly as it was; and over every
    sequence of these events the flag follows the machine [next]. *)
Theorem mobile_menu_machine (m : menu) :
  mobileMenuOpen AppState_init = false ∧
  (phase_of m = Closed → phase_of (handle HamburgerClick m) = Open) ∧
  (phase_of m = Open →
     phase_of (handle HamburgerClick m) = Closed ∧
     phase_of (handle LinkClick m) = Closed ∧
     phase_of (handle (KeyDown "Escape") m) = Closed ∧
     (is_Some (overlay m) → phase_of (handle OverlayClick m) = Closed)) ∧
  (phase_of m = Closed →
     phase_of (handle OverlayClick m) = Closed ∧
     phase_of (handle LinkClick m) = Closed ∧
     phase_of (handle (KeyDown "Escape") m) = Closed ∧
     (consistent m →
        handle OverlayClick m = m ∧ handle LinkClick m = m ∧
        handle (KeyDown "Escape") m = m)) ∧
  (∀ es : list event,
     (In OverlayClick es → is_Some (overlay m)) →
     phase_of (run es m) = fold_left (fun ph e => next e ph) es (phase_of m)).
Proof.
  split; [reflexivity |].
  split; [| split; [| split]].
  - intros Hc. rewrite phase_handle by (intros H; discriminate H).
    rewrite Hc. reflexivity.
  - intros Ho.
    rewrite !phase_handle by (intros H; discriminate H). rewrite Ho.
    repeat split. intros Hov. rewrite phase_handle by (intros _; exact Hov).
    rewrite Ho. reflexivity.
  - intros Hc.
    assert (Hf : mobileMenuOpen (app m) = false).
    { unfold phase_of in Hc. destruct (mobileMenuOpen (app m)); congruence. }
    assert (Hov : phase_of (handle OverlayClick m) = Closed).
    { cbn. destruct (overlay m); [reflexivity | exact Hc]. }
    assert (Hesc : handle (KeyDown "Escape") m = m).
    { cbn. rewrite Hf. reflexivity. }
    repeat split; try assumption.
    + rewrite Hesc. exact Hc.
    + cbn. destruct (overlay m); [| reflexivity].
      apply close_when_closed; assumption.
    + apply close_when_closed; assumption.
  - intros es. apply phase_run.
Qed.

Lemma mobile_menu_machine_witness :
  phase_of (handle HamburgerClick menu0) = Open ∧
  phase_of (handle LinkClick (openMobileMenu menu0)) = Closed ∧
  handle LinkClick menu0 = menu0 ∧
  phase_of (run [HamburgerClick; KeyDown "Escape"; LinkClick; HamburgerClick] menu0) = Open.
Proof.
  split; [| split; [| split]].
  - apply (proj1 (proj2 (mobile_menu_machine menu0))). reflexivity.
  - apply (proj1 (proj2 (proj2 (mobile_menu_machine (openMobileMenu menu0))))).
    reflexivity.
  - apply (proj1 (proj2 (proj2 (proj2 (mobile_menu_machine menu0))))).
    + reflexivity.
    + exact menu0_consistent.
  - rewrite (proj2 (proj2 (proj2 (proj2 (mobile_menu_machine menu0))))).
    + reflexivity.
    + cbn. intros H. exfalso.
      repeat (destruct H as [H | H]; [discriminate H |]). exact H.
Defined.

Lemma active_add (cl : gset string) : active (classList_add "active" cl).
Proof.
  unfold active, classList_add. rewrite elem_of_union, elem_of_singleton. tauto.
Qed.

Lemma active_remove (cl : gset string) : ¬ active (classList_remove "active" cl).
Proof.
  unfold active, classList_remove.
  rewrite elem_of_difference, elem_of_singleton. tauto.
Qed.

Lemma consistent_open (m : menu) : consistent (openMobileMenu m).
Proof.
  assert (Hs : styled_open (openMobileMenu m)).
  { repeat split; cbn; try apply active_add.
    intros o Ho. destruct (overlay m); cbn in Ho; [| discriminate Ho].
    injection Ho as <-. apply active_add. }
  split; [split |]; cbn.
  - intros _. exact Hs.
  - reflexivity.
  - intros H. discriminate H.
Qed.

Lemma consistent_close (m : menu) : consistent (closeMobileMenu m).
Proof.
  split; [split |]; cbn.
  - intros H. discriminate H.
  - intros (H & _). cbn in H. contradict H. apply active_remove.
  - intros _. repeat split; cbn; try apply active_remove.
    intros o Ho. destruct (overlay m); cbn in Ho; [| discriminate Ho].
    injection Ho as <-. apply active_remove.
Qed.

Lemma consistent_transition (e : event) (m : menu) :
  transitions e m = true → consistent (handle e m).
Proof.
  destruct e as [ | | | key]; cbn; intros Ht.
  - unfold toggleMobileMenu.
    destruct (mobileMenuOpen (app m));
      [apply consistent_close | apply consistent_open].
  - apply bool_decide_eq_true in Ht. destruct Ht as [o ->].
    apply consistent_close.
  - apply consistent_close.
  - rewrite Ht. apply consistent_close.
Qed.

Lemma handle_idle (e : event) (m : menu) :
  transitions e m = false → handle e m = m.
Proof.
  destruct e as [ | | | key]; cbn; intros Ht; try discriminate Ht.
  - apply bool_decide_eq_false in Ht.
    destruct (overlay m) as [o | ]; [| reflexivity].
    contradict Ht. exists o. reflexivity.
  - rewrite Ht. reflexivity.
Qed.

Lemma consistent_handle (e : event) (m : menu) :
  consistent m → consistent (handle e m).
Proof.
  intros Hm. destruct (transitions e m) eqn:Ht.
  - apply consistent_transition, Ht.
  - rewrite handle_idle by exact Ht. exact Hm.
Qed.

Lemma consistent_run (es : list event) (m : menu) :
  consistent m → consistent (run es m).
Proof.
  unfold run. revert m.
  induction es as [ | e es IH]; intros m Hm; cbn; [exact Hm |].
  apply IH, consistent_handle, Hm.
Qed.

(** C10. Every mobile-menu event keeps the flag and the styling
    together: once a handler has opened or closed the menu,
    [mobileMenuOpen] is true exactly when the links, the hamburger and
    the overlay (if the page has one) carry [active] and the body's
    overflow is [hidden], and when it is false none of them carries
    [active] and the overflow is reset; an event that opens or closes
    nothing changes nothing, so the agreement holds after every
    sequence of events once it holds. *)
Theorem mobile_menu_styling (m : menu) :
  (∀ e : event, transitions e m = true → consistent (handle e m)) ∧
  (∀ e : event, transitions e m = false → handle e m = m) ∧
  (consistent m → ∀ es : list event, consistent (run es m)).
Proof.
  split; [| split].
  - intros e. apply consistent_transition.
  - intros e. apply handle_idle.
  - intros Hm es. apply consistent_run, Hm.
Qed.

Lemma mobile_menu_styling_witness :
  consistent (handle HamburgerClick menu0) ∧
  handle (KeyDown "Escape") menu0 = menu0 ∧
  consistent (run [HamburgerClick; KeyDown "Tab"; LinkClick] menu0).
Proof.
  split; [| split].
  - apply (proj1 (mobile_menu_styling menu0)). reflexivity.
  - apply (proj1 (proj2 (mobile_menu_styling menu0))). reflexivity.
  - apply (proj2 (proj2 (mobile_menu_styling menu0))). exact menu0_consistent.
Defined.

End MenuFacts.

(** ** Copy buttons *)

Section CopyFacts.

Import Copy.
Local Open Scope N_scope.

Lemma fire_restore (t : timer) (bs : list button) (j : nat) :
  fire t bs !! j =
  if aims_at j t then restore (action t) <$> bs !! j else bs !! j.
Proof.
  unfold fire, aims_at.
  destruct (Nat.eqb_spec (target t) j) as [-> | Hne].
  - destruct (bs !! j) as [b | ] eqn:Hb.
    + assert (Hlt : (j < length bs)%nat) by (eapply lookup_lt_Some; eassumption).
      destruct (action t); cbn; rewrite list_lookup_insert_eq by exact Hlt;
        reflexivity.
    + cbn. exact Hb.
  - destruct (bs !! target t) as [b | ]; [| reflexivity].
    destruct (action t); apply list_lookup_insert_ne; exact Hne.
Qed.

Lemma fold_fire (ts : list timer) (bs : list button) (j : nat) :
  fold_left (fun bs t => fire t bs) ts bs !! j =
  fold_left (fun ob t => restore (action t) <$> ob)
            (List.filter (aims_at j) ts) (bs !! j).
Proof.
  revert bs. induction ts as [ | t ts IH]; intros bs; cbn; [reflexivity |].
  rewrite IH, fire_restore. destruct (aims_at j t); reflexivity.
Qed.

Lemma filter_swap {A : Type} (f g : A → bool) (l : list A) :
  List.filter f (List.filter g l) = List.filter g (List.filter f l).
Proof.
  induction l as [ | a l IH]; cbn; [reflexivity |].
  destruct (f a) eqn:Ef, (g a) eqn:Eg; cbn; rewrite ?Ef, ?Eg, IH; reflexivity.
Qed.

Lemma filter_none {A : Type} (f : A → bool) (l : list A) :
  Forall (fun a => f a = false) l → List.filter f l = [].
Proof.
  induction 1 as [ | a l Ha _ IH]; cbn; [reflexivity |]. rewrite Ha. exact IH.
Qed.

Lemma quiet_slice (i : nat) (s : state) :
  quiet i s → List.filter (aims_at i) (timers s) = [].
Proof.
  intros Hq. apply filter_none. eapply Forall_impl; [exact Hq |].
  intros t Ht. apply Nat.eqb_neq, Ht.
Qed.

(** [advance] seen from one button. *)
Lemma slice_advance (d : N) (s : state) (j : nat) :
  slice j (advance d s) =
  (now s + d,
   fold_left (fun ob t => restore (action t) <$> ob)
             (List.filter (is_due (now s + d)) (List.filter (aims_at j) (timers s)))
             (buttons s !! j),
   List.filter (fun t => negb (is_due (now s + d) t))
               (List.filter (aims_at j) (timers s))).
Proof.
  unfold slice, advance. cbn.
  rewrite fold_fire, (filter_swap (aims_at j)), (filter_swap (aims_at j)).
  reflexivity.
Qed.

(** [click] seen from the clicked button and from another one. *)
Lemma slice_click_same (i : nat) (ok : bool) (s : state) (b : button) :
  buttons s !! i = Some b → hasCode b = true →
  slice i (click i ok s) =
  (now s,
   Some {| textContent := if ok then "Copied!" else "Failed";
           classList := if ok then classList_add "copied" (classList b)
                        else classList b;
           hasCode := hasCode b |},
   (List.filter (aims_at i) (timers s) ++ [ scheduled (now s) i ok b ])%list).
Proof.
  intros Hb Hc. unfold slice, click. rewrite Hb, Hc. cbn.
  assert (Hlt : (i < length (buttons s))%nat) by (eapply lookup_lt_Some; eassumption).
  destruct ok; cbn; rewrite list_lookup_insert_eq by exact Hlt;
    rewrite List.filter_app; cbn; unfold aims_at at 2; cbn;
    rewrite Nat.eqb_refl; reflexivity.
Qed.

Lemma slice_click_other (i j : nat) (ok : bool) (s : state) :
  i ≠ j → slice j (click i ok s) = slice j s.
Proof.
  intros Hne. unfold slice, click.
  destruct (buttons s !! i) as [b | ]; [| reflexivity].
  destruct (hasCode b); cbn; [| reflexivity].
  assert (Hf : aims_at j {| due := now s + 2000; target := i;
                            action := RestoreCopy |} = false)
    by (apply Nat.eqb_neq; exact Hne).
  destruct ok; cbn; rewrite list_lookup_insert_ne by exact Hne;
    rewrite List.filter_app; cbn; unfold aims_at at 2; cbn;
    unfold aims_at in Hf; cbn in Hf; rewrite Hf, app_nil_r; reflexivity.
Qed.

(** The slice of a button after a step depends on its slice before. *)
Lemma slice_step (e : event) (s s' : state) (j : nat) :
  slice j s = slice j s' → slice j (step e s) = slice j (step e s').
Proof.
  intros Hs. pose proof Hs as Hs0.
  unfold slice in Hs. injection Hs as Hn Hb Ht.
  destruct e as [i ok | d]; cbn.
  - destruct (Nat.eq_dec i j) as [-> | Hne].
    + destruct (buttons s !! j) as [b | ] eqn:Eb.
      * assert (Eb' : buttons s' !! j = Some b) by congruence.
        destruct (hasCode b) eqn:Ec.
        -- rewrite (slice_click_same j ok s b Eb Ec),
             (slice_click_same j ok s' b Eb' Ec), Hn, Ht.
           reflexivity.
        -- unfold click. rewrite Eb, Eb', Ec. cbn. exact Hs0.
      * assert (Eb' : buttons s' !! j = None) by congruence.
        unfold click. rewrite Eb, Eb'. exact Hs0.
    + rewrite !slice_click_other by exact Hne. exact Hs0.
  - rewrite !slice_advance, Hn, Hb, Ht. reflexivity.
Qed.

Lemma slice_run_without (es : list event) (i j : nat) (s s' : state) :
  i ≠ j → slice j s = slice j s' →
  slice j (run es s) = slice j (run (without i es) s').
Proof.
  intros Hne. unfold run. revert s s'.
  induction es as [ | e es IH]; intros s s' Hs; cbn; [exact Hs |].
  destruct e as [k ok | d]; cbn.
  - destruct (Nat.eqb_spec k i) as [-> | Hk]; cbn.
    + apply IH. rewrite slice_click_other by exact Hne. exact Hs.
    + apply IH. apply (slice_step (Click k ok)), Hs.
  - apply IH. apply (slice_step (Wait d)), Hs.
Qed.

Lemma slice_advance_of (d : N) (s : state) (j : nat)
      (n : N) (ob : option button) (ts : list timer) :
  slice j s = (n, ob, ts) →
  slice j (advance d s) =
  (n + d,
   fold_left (fun ob t => restore (action t) <$> ob)
             (List.filter (is_due (n + d)) ts) ob,
   List.filter (fun t => negb (is_due (n + d) t)) ts).
Proof.
  intros Hs. rewrite slice_advance.
  unfold slice in Hs. injection Hs as -> -> ->. reflexivity.
Qed.

Lemma slice_click_of (i : nat) (ok : bool) (s : state)
      (n : N) (b : button) (ts : list timer) :
  slice i s = (n, Some b, ts) → hasCode b = true →
  slice i (click i ok s) =
  (n, Some (clicked ok b), (ts ++ [ scheduled n i ok b ])%list).
Proof.
  intros Hs Hc. unfold slice in Hs. injection Hs as Hn Hb Ht.
  rewrite (slice_click_same i ok s b Hb Hc), Hn, Ht. reflexivity.
Qed.

Lemma due_scheduled (t d : N) (i : nat) (ok : bool) (b : button) :
  is_due (t + d) (scheduled t i ok b) = (2000 <=? d).
Proof.
  unfold is_due, scheduled. cbn.
  destruct (N.leb_spec 2000 d); [apply N.leb_le | apply N.leb_gt]; lia.
Qed.

(** One click on a quiet button, then [d] milliseconds. *)
Lemma click_wait (s : state) (i : nat) (ok : bool) (b : button) (d : N) :
  buttons s !! i = Some b → hasCode b = true → quiet i s →
  buttons (advance d (click i ok s)) !! i =
  Some (if 2000 <=? d
        then restore (action (scheduled (now s) i ok b)) (clicked ok b)
        else clicked ok b).
Proof.
  intros Hb Hc Hq.
  pose proof (slice_advance d (click i ok s) i) as Ha.
  pose proof (slice_click_same i ok s b Hb Hc) as Hs.
  rewrite (quiet_slice i s Hq) in Hs. cbn [app] in Hs.
  unfold slice in Hs at 1. injection Hs as Hn Hb' Ht.
  rewrite Hn, Hb', Ht in Ha. cbn [List.filter] in Ha.
  rewrite due_scheduled in Ha.
  unfold slice in Ha at 1. injection Ha as _ Ha _.
  refine (eq_trans Ha _).
  destruct (2000 <=? d); reflexivity.
Qed.

Lemma filter_all {A : Type} (f : A → bool) (l : list A) :
  Forall (fun a => f a = true) l → List.filter f l = l.
Proof.
  induction 1 as [ | a l Ha _ IH]; cbn; [reflexivity |]. rewrite Ha, IH. reflexivity.
Qed.

Lemma timely_due (s : state) (i : nat) (d : N) :
  timely s → 2000 <= d →
  Forall (fun t => is_due (now s + d) t = true) (List.filter (aims_at i) (timers s)).
Proof.
  unfold timely. intros Ht Hd.
  induction Ht as [ | t ts Hdue _ IH]; cbn; [constructor |].
  destruct (aims_at i t); [| exact IH].
  constructor; [| exact IH]. apply N.leb_le. lia.
Qed.

Lemma fold_restore_some (ts : list timer) (b : button) :
  ∃ b', fold_left (fun ob t => restore (action t) <$> ob) ts (Some b) = Some b'.
Proof.
  revert b. induction ts as [ | t ts IH]; intros b; cbn; [eauto |]. apply IH.
Qed.

Lemma timely_click (i : nat) (ok : bool) (s : state) : timely s → timely (click i ok s).
Proof.
  unfold timely, click. intros Ht.
  destruct (buttons s !! i) as [b | ]; [| exact Ht].
  destruct (hasCode b); cbn; [| exact Ht].
  destruct ok; cbn; apply Forall_app; (split; [exact Ht |]);
    constructor; cbn; try lia; constructor.
Qed.

Lemma timely_advance (d : N) (s : state) : timely s → timely (advance d s).
Proof.
  unfold timely, advance. cbn. intros Ht.
  induction Ht as [ | t ts Hdue _ IH]; cbn; [constructor |].
  destruct (is_due (now s + d) t); cbn; [exact IH |].
  constructor; [lia | exact IH].
Qed.

(** Every state reached from a timely one is timely, [page1] included. *)
Lemma timely_run (es : list event) (s : state) : timely s → timely (run es s).
Proof.
  unfold run. revert s. induction es as [ | e es IH]; intros s Ht; cbn; [exact Ht |].
  apply IH. destruct e as [i ok | d]; [apply timely_click | apply timely_advance];
    exact Ht.
Qed.

(** One click, then 2000 ms or more: whatever was pending on the button
    has run, and the restore of this click has run last. *)
Lemma click_settles (s : state) (i : nat) (ok : bool) (b : button) (d : N) :
  buttons s !! i = Some b → hasCode b = true → timely s → 2000 <= d →
  ∃ b', buttons (advance d (click i ok s)) !! i =
        Some (restore (action (scheduled (now s) i ok b)) b').
Proof.
  intros Hb Hc Ht Hd.
  pose proof (slice_click_same i ok s b Hb Hc) as Hs1.
  pose proof (slice_advance_of d _ i _ _ _ Hs1) as Hs2.
  rewrite List.filter_app in Hs2. cbn [List.filter] in Hs2.
  rewrite due_scheduled in Hs2.
  replace (2000 <=? d) with true in Hs2 by (symmetry; apply N.leb_le; exact Hd).
  rewrite (filter_all _ _ (timely_due s i d Ht Hd)), fold_left_app in Hs2.
  cbn [fold_left] in Hs2.
  destruct (fold_restore_some (List.filter (aims_at i) (timers s))
              {| textContent := if ok then "Copied!" else "Failed";
                 classList := if ok then classList_add "copied" (classList b)
                              else classList b;
                 hasCode := hasCode b |}) as [b' Hb'].
  rewrite Hb' in Hs2. exists b'.
  unfold slice in Hs2 at 1. injection Hs2 as _ Hs2 _. exact Hs2.
Qed.


Lemma page1_quiet : quiet 0 page1.
Proof. constructor. Qed.

Lemma page1_timely : timely page1.
Proof. constructor. Qed.


(** C5 as stated does not hold: two successful clicks one second apart
    on the button of [page1], and one second after the second click the
    first click's restore has run. *)
Lemma restart_on_click_fails : ¬ restart_on_click.
Proof.
  intros H.
  specialize (H page1 0%nat true true 1000 1000 _ eq_refl eq_refl page1_quiet
                eq_refl eq_refl).
  cbv zeta in H. apply (f_equal (fmap textContent)) in H.
  vm_compute in H. discriminate H.
Qed.

Lemma two_clicks (s : state) (i : nat) (b : button) (ok1 ok2 : bool) (d1 : N) :
  buttons s !! i = Some b → hasCode b = true → quiet i s →
  0 < d1 → d1 < 2000 →
  buttons (advance (2000 - d1) (click i ok2 (advance d1 (click i ok1 s)))) !! i =
  Some (restore (action (scheduled (now s) i ok1 b)) (clicked ok2 (clicked ok1 b))).
Proof.
  intros Hb Hc Hq H0 H2.
  assert (Hs0 : slice i s = (now s, Some b, [])).
  { unfold slice. rewrite Hb, (quiet_slice i s Hq). reflexivity. }
  pose proof (slice_click_of i ok1 s _ _ _ Hs0 Hc) as Hs1. cbn [app] in Hs1.
  pose proof (slice_advance_of d1 _ i _ _ _ Hs1) as Hs1'.
  cbn [List.filter] in Hs1'. rewrite due_scheduled in Hs1'.
  replace (2000 <=? d1) with false in Hs1'
    by (symmetry; apply N.leb_gt; exact H2).
  cbn [negb fold_left] in Hs1'.
  pose proof (slice_click_of i ok2 _ _ _ _ Hs1' Hc) as Hs2. cbn [app] in Hs2.
  pose proof (slice_advance_of (2000 - d1) _ i _ _ _ Hs2) as Hs3.
  replace (now s + d1 + (2000 - d1)) with (now s + 2000) in Hs3 by lia.
  cbn [List.filter] in Hs3.
  rewrite due_scheduled in Hs3. cbn [N.leb] in Hs3.
  replace (is_due (now s + 2000) (scheduled (now s + d1) i ok2 (clicked ok1 b)))
    with false in Hs3
    by (symmetry; unfold is_due, scheduled; cbn; apply N.leb_gt; lia).
  unfold slice in Hs3 at 1. injection Hs3 as _ Hs3 _. exact Hs3.
Qed.

(** C5, amended. A click schedules its own restore 2000 ms ahead and
    cancels none: after a second click less than 2000 ms after the
    first, the first click's restore still runs at its own time and
    writes the label it was scheduled with; and what happens to one
    button (its label, its marks, its pending restores) is the same
    whether or not another button is clicked. *)
Theorem copy_timers_accumulate (s : state) (i : nat) :
  (∀ (ok : bool) (b : button),
     buttons s !! i = Some b → hasCode b = true →
     timers (click i ok s) = (timers s ++ [ scheduled (now s) i ok b ])%list) ∧
  (∀ (b : button) (ok1 ok2 : bool) (d1 : N),
     buttons s !! i = Some b → hasCode b = true → quiet i s →
     0 < d1 → d1 < 2000 →
     label i (advance (2000 - d1) (click i ok2 (advance d1 (click i ok1 s)))) =
     Some (if ok1 then textContent b else "Copy")) ∧
  (∀ (es : list event) (j : nat),
     i ≠ j → slice j (run es s) = slice j (run (without i es) s)).
Proof.
  split; [| split].
  - intros ok b Hb Hc. unfold click. rewrite Hb, Hc. cbn.
    destruct ok; reflexivity.
  - intros b ok1 ok2 d1 Hb Hc Hq H0 H2. unfold label.
    rewrite (two_clicks s i b ok1 ok2 d1 Hb Hc Hq H0 H2).
    destruct ok1; reflexivity.
  - intros es j Hne. apply slice_run_without; [exact Hne | reflexivity].
Qed.

Lemma copy_timers_accumulate_witness :
  length (timers (click 0 true (advance 1000 (click 0 true page1)))) = 2%nat ∧
  label 0 (advance 1000 (click 0 true (advance 1000 (click 0 true page1)))) =
    Some "Copy" ∧
  slice 0 (run [Click 0 true; Click 1 true; Wait 2000] page1) =
    slice 0 (run [Click 0 true; Wait 2000] page1).
Proof.
  split; [| split].
  - rewrite (proj1 (copy_timers_accumulate (advance 1000 (click 0 true page1)) 0)
               true {| textContent := "Copied!";
                       classList := classList_add "copied" ∅;
                       hasCode := true |} eq_refl eq_refl).
    reflexivity.
  - apply (proj1 (proj2 (copy_timers_accumulate page1 0))
             _ true true 1000 eq_refl eq_refl page1_quiet); reflexivity.
  - apply (proj2 (proj2 (copy_timers_accumulate page1 1))
             [Click 0 true; Click 1 true; Wait 2000] 0%nat).
    discriminate.
Defined.

End CopyFacts.

(** ** Smooth anchor scrolling *)

Section AnchorFacts.

Import Anchor.






Lemma click_found (href : string) (doc : document) (b : browser) (el : element) :
  href ≠ "#" → querySelector doc href = Ok (Some el) →
  click href doc b =
  {| page :=
       (let b1 := scrollTo (fsub (fadd (elem_top el) (scrollY b)) (of_Z 80)) b in
        if hasPushState b then pushState href b1 else b1);
     defaultPrevented := true;
     thrown := None |}.
Proof.
  intros Hne Hq. unfold click. rewrite Hq.
  apply String.eqb_neq in Hne. rewrite Hne. reflexivity.
Qed.


(** The [href] is a selector, not an id: an id that starts with a digit
    makes the listener throw, an id with a dot in it is not found, and
    [#sec.one] finds the element with id [sec] and class [one]. *)
Example href_is_a_selector :
  click "#1abc" (document_of [ one_abc ]) browser0 =
    {| page := browser0; defaultPrevented := false; thrown := Some SyntaxError |} ∧
  click "#sec.one" (document_of [ sec_dot_one ]) browser0 =
    {| page := browser0; defaultPrevented := false; thrown := None |} ∧
  defaultPrevented (click "#sec.one" (document_of [ sec_one ]) browser0) = true ∧
  scrollTarget (page (click "#sec.one" (document_of [ sec_one ]) browser0)) =
    Some (of_Z 680).
Proof. repeat split; vm_compute; reflexivity. Qed.




(** C7 as stated does not hold: a click on the link to [#features] on
    a fresh page leaves two entries in the session history where there
    was one. *)
Lemma no_history_entry_fails : ¬ no_history_entry.
Proof.
  intros H.
  destruct (H "#features" doc0 browser0 features) as [_ Hlen].
  - discriminate.
  - reflexivity.
  - vm_compute in Hlen. discriminate Hlen.
Qed.

(** C7, amended. A click on a same-page link whose [href], as a
    selector, finds an element prevents the default jump and starts a
    smooth scroll to the element's top plus the current offset minus 80,
    added and subtracted as doubles; then, where the browser has
    [history.pushState], the URL fragment becomes the link's fragment by
    pushing one new entry onto the session history (the previous URL
    stays behind it, entries ahead are dropped); the push moves neither
    the offset nor the scroll under way.  Without [history.pushState]
    the URL and the history stay as they were. *)
Theorem anchor_scroll_pushes_entry
        (href : string) (doc : document) (b : browser) (el : element) :
  href ≠ "#" → querySelector doc href = Ok (Some el) →
  let b' := page (click href doc b) in
  defaultPrevented (click href doc b) = true ∧
  thrown (click href doc b) = None ∧
  scrollTarget b' = Some (fsub (fadd (elem_top el) (scrollY b)) (of_Z 80)) ∧
  scrollY b' = scrollY b ∧
  (hasPushState b = true →
     fragment b' = href ∧
     back b' = (back b ++ [ fragment b ])%list ∧
     forward b' = [] ∧
     history_length b' = S (length (back b) + 1)) ∧
  (hasPushState b = false →
     fragment b' = fragment b ∧ back b' = back b ∧ forward b' = forward b).
Proof.
  intros Hne Hq. rewrite (click_found href doc b el Hne Hq).
  cbn [page defaultPrevented thrown].
  destruct (hasPushState b); cbn.
  - repeat split; try discriminate.
    unfold history_length. cbn. rewrite length_app. cbn. lia.
  - repeat split; discriminate.
Qed.

Lemma anchor_scroll_pushes_entry_witness :
  scrollTarget (page (click "#features" doc0 browser0)) = Some (of_Z 680) ∧
  fragment (page (click "#features" doc0 browser0)) = "#features" ∧
  history_length (page (click "#features" doc0 browser0)) = 2%nat.
Proof.
  pose proof (anchor_scroll_pushes_entry "#features" doc0 browser0 features)
    as (_ & _ & Ht & _ & Hp & _); [discriminate | reflexivity |].
  destruct (Hp eq_refl) as (Hf & _ & _ & Hl).
  split; [rewrite Ht; vm_compute; reflexivity | split; [exact Hf | exact Hl]].
Defined.

End AnchorFacts.

(** ** Number formatting *)

Section NumberFacts.

Local Open Scope Z_scope.

Lemma digits2_size (p : positive) : digits2_pos p = Pos.size p.
Proof. induction p as [p IH | p IH | ]; cbn; rewrite ?IH; reflexivity. Qed.

Lemma size_bounds (p : positive) :
  2 ^ (Zpos (Pos.size p) - 1) <= Zpos p < 2 ^ Zpos (Pos.size p).
Proof.
  pose proof (Pos.size_gt p) as Hgt. pose proof (Pos.size_le p) as Hle.
  split.
  - apply Pos2Z.pos_le_pos in Hle. rewrite Pos2Z.inj_pow in Hle.
    replace (Zpos (Pos.size p)) with (Z.succ (Zpos (Pos.size p) - 1)) in Hle by lia.
    rewrite Z.pow_succ_r in Hle by lia. cbn in Hle. lia.
  - apply Pos2Z.pos_lt_pos in Hgt. rewrite Pos2Z.inj_pow in Hgt. exact Hgt.
Qed.

Lemma size_unique (p : positive) (k : Z) :
  2 ^ (k - 1) <= Zpos p < 2 ^ k → Zpos (Pos.size p) = k.
Proof.
  intros [Hlo Hhi]. destruct (size_bounds p) as [Hlo' Hhi'].
  assert (0 < k).
  { destruct (Z_lt_le_dec 0 k) as [H | H]; [exact H |].
    destruct (Z.eq_dec k 0) as [-> | Hk]; [cbn in Hhi; lia |].
    rewrite Z.pow_neg_r in Hhi by lia. lia. }
  destruct (Z.lt_trichotomy (Zpos (Pos.size p)) k) as [Hlt | [Heq | Hgt]];
    [| exact Heq |].
  - assert (2 ^ Zpos (Pos.size p) <= 2 ^ (k - 1))
      by (apply Z.pow_le_mono_r; lia). lia.
  - assert (2 ^ k <= 2 ^ (Zpos (Pos.size p) - 1))
      by (apply Z.pow_le_mono_r; lia). lia.
Qed.

Lemma iter_xO (m d : positive) : Zpos (Pos.iter xO m d) = Zpos m * 2 ^ Zpos d.
Proof.
  induction d as [ | d IH] using Pos.peano_ind.
  - cbn. lia.
  - rewrite Pos.iter_succ, Pos2Z.inj_succ, Z.pow_succ_r by lia.
    rewrite Pos2Z.inj_xO, IH. lia.
Qed.

Lemma normal_digits (m : positive) : normal m → Zpos (digits2_pos m) = 53.
Proof. intros H. rewrite digits2_size. apply size_unique. exact H. Qed.

Lemma fexp_small (x : Z) : -1021 <= x → fexp prec emax x = x - 53.
Proof. intros H. unfold fexp, emin, prec, emax. lia. Qed.

Lemma round_exact (s : bool) (m : positive) (e : Z) :
  normal m → -1074 <= e <= 971 →
  binary_round_aux prec emax s (Zpos m) e loc_Exact = S754_finite s m e.
Proof.
  intros Hn He.
  assert (Hs : shr_fexp prec emax (Zpos m) e loc_Exact =
               ({| shr_m := Zpos m; shr_r := false; shr_s := false |}, e)).
  { unfold shr_fexp, Zdigits2. rewrite (normal_digits m Hn), fexp_small by lia.
    replace (53 + e - 53 - e) with 0 by lia. reflexivity. }
  unfold binary_round_aux. rewrite Hs. cbn [shr_m loc_of_shr_record round_nearest_even].
  rewrite Hs. cbn [shr_m].
  replace (e <=? emax - prec) with true
    by (symmetry; apply Z.leb_le; unfold emax, prec; lia).
  reflexivity.
Qed.

Lemma of_Z_normal (n : positive) :
  Zpos n < 2 ^ 53 →
  ∃ m : positive,
    of_Z (Zpos n) = S754_finite false m (Zpos (Pos.size n) - 53) ∧
    Zpos m = Zpos n * 2 ^ (53 - Zpos (Pos.size n)) ∧
    normal m.
Proof.
  intros Hlt. destruct (size_bounds n) as [Hlo Hhi].
  set (k := Zpos (Pos.size n)) in *.
  assert (Hk : 1 <= k <= 53).
  { split; [unfold k; lia |].
    destruct (Z_le_gt_dec k 53) as [H | H]; [exact H |].
    assert (2 ^ 53 <= 2 ^ (k - 1)) by (apply Z.pow_le_mono_r; lia). lia. }
  unfold of_Z, binary_normalize, binary_round.
  rewrite digits2_size. fold k. rewrite fexp_small by lia.
  unfold shl_align. replace (k + 0 - 53 - 0) with (k - 53) by lia.
  destruct (Z.eq_dec k 53) as [E | E].
  - rewrite E. cbn [Z.sub Z.add Z.opp Z.pos_sub].
    assert (Hn : normal n) by (unfold normal; rewrite E in Hlo; cbn in Hlo; lia).
    exists n. split; [| split; [cbn; lia | exact Hn]].
    change (53 - 53) with 0. apply round_exact; [exact Hn | lia].
  - destruct (k - 53) as [ | d | d] eqn:Ed; try lia.
    assert (Hd : Zpos d = 53 - k) by lia.
    assert (Hm : Zpos (Pos.iter xO n d) = Zpos n * 2 ^ (53 - k))
      by (rewrite iter_xO, Hd; reflexivity).
    assert (Hn : normal (Pos.iter xO n d)).
    { unfold normal. rewrite Hm. split.
      - replace (2 ^ 52) with (2 ^ (k - 1) * 2 ^ (53 - k)).
        + apply Z.mul_le_mono_nonneg_r; [apply Z.pow_nonneg; lia | exact Hlo].
        + rewrite <- Z.pow_add_r by lia. f_equal. lia.
      - replace (2 ^ 53) with (2 ^ k * 2 ^ (53 - k)).
        + apply Z.mul_lt_mono_pos_r; [apply Z.pow_pos_nonneg; lia | exact Hhi].
        + rewrite <- Z.pow_add_r by lia. f_equal. lia. }
    exists (Pos.iter xO n d). split; [| split; [exact Hm | exact Hn]].
    rewrite <- Ed. apply round_exact; [exact Hn | lia].
Qed.

Lemma div_eucl_div_mod (a b : Z) : Z.div_eucl a b = (a / b, a mod b).
Proof. unfold Z.div, Z.modulo. destruct (Z.div_eucl a b). reflexivity. Qed.

Lemma div_core (m1 m2 : positive) (e1 e2 : Z) :
  normal m1 → normal m2 → -1000 <= e1 - e2 →
  SFdiv_core_binary prec emax (Zpos m1) e1 (Zpos m2) e2 =
  ((Zpos m1 * 2 ^ 53) / Zpos m2, e1 - e2 - 53,
   new_location (Zpos m2) ((Zpos m1 * 2 ^ 53) mod Zpos m2)).
Proof.
  intros H1 H2 He. unfold SFdiv_core_binary, Zdigits2.
  rewrite (normal_digits m1 H1), (normal_digits m2 H2), fexp_small by lia.
  replace (Z.min (53 + e1 - (53 + e2) - 53) (e1 - e2)) with (e1 - e2 - 53) by lia.
  replace (e1 - e2 - (e1 - e2 - 53)) with 53 by lia.
  rewrite Z.shiftl_mul_pow2 by lia. rewrite div_eucl_div_mod. reflexivity.
Qed.

Lemma shr_1_pos (m : positive) (r s : bool) :
  shr_1 {| shr_m := Zpos m; shr_r := r; shr_s := s |} =
  {| shr_m := Z.div2 (Zpos m); shr_r := Z.odd (Zpos m); shr_s := r || s |}.
Proof. destruct m; reflexivity. Qed.

Lemma shr_fexp_0 (m : positive) (e : Z) (l : location) :
  normal m → -1074 <= e →
  shr_fexp prec emax (Zpos m) e l = (shr_record_of_loc (Zpos m) l, e).
Proof.
  intros Hn He. unfold shr_fexp, Zdigits2.
  rewrite (normal_digits m Hn), fexp_small by lia.
  replace (53 + e - 53 - e) with 0 by lia. reflexivity.
Qed.

Lemma shr_fexp_1 (m : positive) (e : Z) (l : location) :
  2 ^ 53 <= Zpos m < 2 ^ 54 → -1074 <= e →
  shr_fexp prec emax (Zpos m) e l = (shr_1 (shr_record_of_loc (Zpos m) l), e + 1).
Proof.
  intros Hn He. unfold shr_fexp, Zdigits2.
  rewrite digits2_size, (size_unique m 54) by exact Hn.
  rewrite fexp_small by lia.
  replace (54 + e - 53 - e) with 1 by lia. reflexivity.
Qed.

(** The last two steps of [binary_round_aux] on a mantissa that needs at
    most one more shift. *)
Lemma round_finish (s : bool) (q e : Z) :
  2 ^ 52 <= q <= 2 ^ 53 → -1074 <= e <= 970 →
  ∃ (M : positive) (E : Z),
    (let '(mrs, e') := shr_fexp prec emax q e loc_Exact in
     match shr_m mrs with
     | Z0 => S754_zero s
     | Zpos m => if e' <=? emax - prec then S754_finite s m e' else S754_infinity s
     | Zneg _ => S754_nan
     end) = S754_finite s M E ∧
    normal M ∧ Zpos M * 2 ^ (E - e) = q ∧ e <= E <= e + 1.
Proof.
  intros Hq He. destruct q as [ | p | p]; try (cbn in Hq; lia).
  destruct (Z_lt_le_dec (Zpos p) (2 ^ 53)) as [Hlt | Hge].
  - assert (Hn : normal p) by (unfold normal; lia).
    rewrite (shr_fexp_0 p e loc_Exact Hn) by lia. cbn [shr_record_of_loc shr_m].
    replace (e <=? emax - prec) with true
      by (symmetry; apply Z.leb_le; unfold emax, prec; lia).
    exists p, e. repeat split; try lia; try apply Hn.
    replace (e - e) with 0 by lia. lia.
  - assert (Hp : p = 9007199254740992%positive) by lia. subst p.
    rewrite (shr_fexp_1 _ e loc_Exact) by lia.
    cbn [shr_record_of_loc]. rewrite shr_1_pos. cbn [shr_m].
    change (Z.div2 (Zpos 9007199254740992)) with (Zpos 4503599627370496).
    replace (e + 1 <=? emax - prec) with true
      by (symmetry; apply Z.leb_le; unfold emax, prec; lia).
    exists 4503599627370496%positive, (e + 1). split; [reflexivity |].
    replace (e + 1 - e) with 1 by lia.
    split; [unfold normal; lia | split; [reflexivity | lia]].
Qed.

Lemma round_aux_step (s : bool) (q e : Z) (l : location) (mrs : shr_record) (e1 : Z) :
  shr_fexp prec emax q e l = (mrs, e1) →
  binary_round_aux prec emax s q e l =
  (let '(mrs2, e2) :=
     shr_fexp prec emax (round_nearest_even (shr_m mrs) (loc_of_shr_record mrs))
              e1 loc_Exact in
   match shr_m mrs2 with
   | Z0 => S754_zero s
   | Zpos m => if e2 <=? emax - prec then S754_finite s m e2 else S754_infinity s
   | Zneg _ => S754_nan
   end).
Proof. intros H. unfold binary_round_aux. rewrite H. reflexivity. Qed.

Lemma loc_roundtrip (m : Z) (l : location) :
  shr_m (shr_record_of_loc m l) = m ∧
  loc_of_shr_record (shr_record_of_loc m l) = l.
Proof. destruct l as [ | [ | | ]]; split; reflexivity. Qed.

Lemma rne_cases (q : Z) (l : location) :
  round_nearest_even q l = q ∨ round_nearest_even q l = q + 1.
Proof.
  destruct l as [ | [ | | ]]; cbn; auto. destruct (Z.even q); auto.
Qed.

Lemma round_div (q r m2 e : Z) :
  2 ^ 52 <= q < 2 ^ 54 → 0 <= r < m2 → Z.even m2 = true → -1074 <= e <= 960 →
  ∃ (M : positive) (E : Z),
    binary_round_aux prec emax false q e (new_location m2 r) = S754_finite false M E ∧
    normal M ∧ e <= E <= e + 2 ∧
    2 * Z.abs (Zpos M * 2 ^ (E - e) * m2 - (q * m2 + r)) <= 2 ^ (E - e) * m2.
Proof.
  intros Hq Hr Hm He.
  destruct q as [ | p | p]; try (cbn in Hq; lia).
  set (l := new_location m2 r).
  destruct (Z_lt_le_dec (Zpos p) (2 ^ 53)) as [Hlt | Hge].
  - assert (Hn : normal p) by (unfold normal; lia).
    rewrite (round_aux_step false (Zpos p) e l _ _ (shr_fexp_0 p e l Hn ltac:(lia))).
    destruct (loc_roundtrip (Zpos p) l) as [-> ->].
    set (q' := round_nearest_even (Zpos p) l).
    assert (Hq' : 2 ^ 52 <= q' <= 2 ^ 53)
      by (destruct (rne_cases (Zpos p) l) as [H | H]; fold q' in H; lia).
    destruct (round_finish false q' e Hq' ltac:(lia)) as (M & E & Heq & HM & Hv & HE).
    exists M, E. split; [exact Heq |]. split; [exact HM |]. split; [lia |].
    assert (Hpow : 0 < 2 ^ (E - e)) by (apply Z.pow_pos_nonneg; lia).
    rewrite Hv. subst q' l. unfold new_location, new_location_even.
    rewrite Hm. destruct (Z.eqb_spec r 0) as [-> | Hr0]; cbn [round_nearest_even].
    + replace (Zpos p * m2 - (Zpos p * m2 + 0)) with 0 by lia. cbn. nia.
    + destruct (Z.compare_spec (2 * r) m2) as [Heq2 | Hlt2 | Hgt2];
        cbn [round_nearest_even]; [destruct (Z.even (Zpos p)) | |]; nia.
  - rewrite (round_aux_step false (Zpos p) e l _ _
               (shr_fexp_1 p e l ltac:(lia) ltac:(lia))).
    pose proof (Z.div2_odd (Zpos p)) as Hodd.
    set (h := Z.div2 (Zpos p)) in *.
    assert (Hmrs : ∃ sticky : bool,
               shr_1 (shr_record_of_loc (Zpos p) l) =
               {| shr_m := h; shr_r := Z.odd (Zpos p); shr_s := sticky |} ∧
               (sticky = false → r = 0)).
    { subst l. unfold new_location, new_location_even. rewrite Hm.
      destruct (Z.eqb_spec r 0) as [-> | Hr0].
      - exists false. cbn [shr_record_of_loc]. rewrite shr_1_pos. auto.
      - exists true. destruct (2 * r ?= m2); cbn [shr_record_of_loc];
          rewrite shr_1_pos; split; try reflexivity; discriminate. }
    destruct Hmrs as (sticky & -> & Hsticky). cbn [shr_m].
    set (l' := loc_of_shr_record _).
    set (q' := round_nearest_even h l').
    assert (Hb : 0 <= Z.b2z (Z.odd (Zpos p)) <= 1)
      by (destruct (Z.odd (Zpos p)); cbn; lia).
    assert (Hq' : 2 ^ 52 <= q' <= 2 ^ 53)
      by (destruct (rne_cases h l') as [H | H]; fold q' in H; lia).
    destruct (round_finish false q' (e + 1) Hq' ltac:(lia)) as (M & E & Heq & HM & Hv & HE).
    exists M, E. split; [exact Heq |]. split; [exact HM |]. split; [lia |].
    assert (Hpow : 0 < 2 ^ (E - (e + 1))) by (apply Z.pow_pos_nonneg; lia).
    replace (E - e) with (Z.succ (E - (e + 1))) by lia.
    rewrite Z.pow_succ_r by lia.
    set (c := 2 ^ (E - (e + 1))) in *.
    assert (Hclose : Z.abs (2 * q' * m2 - (Zpos p * m2 + r)) <= m2).
    { subst q' l'. destruct (Z.odd (Zpos p)), sticky; cbn [loc_of_shr_record round_nearest_even];
        cbn [Z.b2z] in Hodd; try (specialize (Hsticky eq_refl)); try nia.
      destruct (Z.even h); nia. }
    replace (Zpos M * (2 * c) * m2) with (2 * (Zpos M * c) * m2) by lia.
    rewrite Hv. nia.
Qed.

Lemma pow2_split (a b : Z) : 0 <= a → 0 <= b → 2 ^ (a + b) = 2 ^ a * 2 ^ b.
Proof. intros. apply Z.pow_add_r; assumption. Qed.

(** The quotient of two integers below 2^53, the divisor at least 4 and
    below 2^52: a positive normal double within half a unit in the last
    place of the true quotient. *)
Lemma fdiv_spec (n d : positive) :
  Zpos n < 2 ^ 53 → 4 <= Zpos d < 2 ^ 52 →
  ∃ (M : positive) (E : Z),
    fdiv (Zpos n) (Zpos d) = S754_finite false M E ∧
    normal M ∧
    E < 0 ∧
    E <= Zpos (Pos.size n) - Zpos (Pos.size d) - 51 ∧
    2 * Z.abs (Zpos M * Zpos d - Zpos n * 2 ^ (- E)) <= Zpos d.
Proof.
  intros Hn Hd.
  destruct (of_Z_normal n Hn) as (m1 & H1 & Hm1 & Hn1).
  destruct (of_Z_normal d ltac:(lia)) as (m2 & H2 & Hm2 & Hn2).
  destruct (size_bounds n) as [Hlo1 Hhi1]. destruct (size_bounds d) as [Hlo2 Hhi2].
  set (k1 := Zpos (Pos.size n)) in *. set (k2 := Zpos (Pos.size d)) in *.
  assert (Hk1 : 1 <= k1 <= 53).
  { split; [unfold k1; lia |].
    destruct (Z_le_gt_dec k1 53) as [H | H]; [exact H |].
    assert (2 ^ 53 <= 2 ^ (k1 - 1)) by (apply Z.pow_le_mono_r; lia). lia. }
  assert (Hk2 : 3 <= k2 <= 52).
  { split.
    - destruct (Z_le_gt_dec 3 k2) as [H | H]; [exact H |].
      assert (2 ^ k2 <= 2 ^ 2) by (apply Z.pow_le_mono_r; unfold k2; lia). lia.
    - destruct (Z_le_gt_dec k2 52) as [H | H]; [exact H |].
      assert (2 ^ 52 <= 2 ^ (k2 - 1)) by (apply Z.pow_le_mono_r; lia). lia. }
  set (A := 2 ^ (53 - k1)) in *. set (B := 2 ^ (53 - k2)) in *.
  assert (HA : 0 < A) by (apply Z.pow_pos_nonneg; lia).
  assert (HB : 0 < B) by (apply Z.pow_pos_nonneg; lia).
  assert (Heven : Z.even (Zpos m2) = true).
  { rewrite Hm2. unfold B. replace (53 - k2) with (Z.succ (52 - k2)) by lia.
    rewrite Z.pow_succ_r by lia.
    replace (Zpos d * (2 * 2 ^ (52 - k2))) with (2 * (Zpos d * 2 ^ (52 - k2))) by lia.
    apply Z.even_even. }
  unfold fdiv. rewrite H1, H2. unfold SFdiv.
  rewrite (div_core m1 m2 _ _ Hn1 Hn2) by lia.
  set (q := Zpos m1 * 2 ^ 53 / Zpos m2). set (r := (Zpos m1 * 2 ^ 53) mod Zpos m2).
  assert (Hqr : Zpos m1 * 2 ^ 53 = Zpos m2 * q + r)
    by (apply Z.div_mod; lia).
  assert (Hr : 0 <= r < Zpos m2) by (apply Z.mod_pos_bound; lia).
  unfold normal in Hn1, Hn2.
  assert (Hq : 2 ^ 52 <= q < 2 ^ 54).
  { split.
    - apply Z.div_le_lower_bound; [lia |]. nia.
    - apply Z.div_lt_upper_bound; [lia |]. nia. }
  destruct (round_div q r (Zpos m2) (k1 - 53 - (k2 - 53) - 53) Hq Hr Heven ltac:(lia))
    as (M & E & Heq & HM & HE & Hacc).
  exists M, E. cbn [xorb]. split; [exact Heq |]. split; [exact HM |].
  split; [lia |]. split; [lia |].
  set (j := E - (k1 - 53 - (k2 - 53) - 53)) in *.
  assert (Hj : 0 < 2 ^ j) by (apply Z.pow_pos_nonneg; lia).
  assert (HP : 0 < 2 ^ (- E)) by (apply Z.pow_pos_nonneg; lia).
  assert (Hscale : A * 2 ^ 53 = 2 ^ j * B * 2 ^ (- E)).
  { unfold A, B. rewrite <- !pow2_split by lia. f_equal. lia. }
  replace (q * Zpos m2 + r) with (Zpos m1 * 2 ^ 53) in Hacc by lia.
  rewrite Hm1, Hm2 in Hacc.
  replace (Zpos n * A * 2 ^ 53) with (Zpos n * (A * 2 ^ 53)) in Hacc by lia.
  rewrite Hscale in Hacc.
  replace (Zpos M * 2 ^ j * (Zpos d * B) - Zpos n * (2 ^ j * B * 2 ^ (- E)))
    with ((2 ^ j * B) * (Zpos M * Zpos d - Zpos n * 2 ^ (- E))) in Hacc by lia.
  rewrite Z.abs_mul, (Z.abs_eq (2 ^ j * B)) in Hacc by nia.
  assert (HX : 0 < 2 ^ j * B) by nia.
  set (X := 2 ^ j * B) in *. set (Y := Z.abs _) in *.
  apply (Z.mul_le_mono_pos_l _ _ X HX). lia.
Qed.

Lemma tenths_floor (M : positive) (E : Z) :
  E < 0 →
  2 * 2 ^ (- E) * tenths M E <= 20 * Zpos M + 2 ^ (- E) <
  2 * 2 ^ (- E) * (tenths M E + 1).
Proof.
  intros HE. unfold tenths.
  replace (0 <=? E) with false by (symmetry; apply Z.leb_gt; exact HE).
  replace (1 - E) with (Z.succ (- E)) by lia. rewrite Z.pow_succ_r by lia.
  assert (HP : 0 < 2 * 2 ^ (- E))
    by (assert (0 < 2 ^ (- E)) by (apply Z.pow_pos_nonneg; lia); lia).
  set (D := 2 * 2 ^ (- E)) in *. set (a := 20 * Zpos M + 2 ^ (- E)).
  pose proof (Z.div_mod a D ltac:(lia)) as Hdm.
  pose proof (Z.mod_pos_bound a D HP) as Hmod.
  lia.
Qed.

Lemma nearest_tenth (M : positive) (E n d : Z) :
  E < 0 → 0 < d → 10 * d < 2 ^ (- E) →
  2 * Z.abs (Zpos M * d - n * 2 ^ (- E)) <= d →
  2 * Z.abs (tenths M E * d - 10 * n) <= d.
Proof.
  intros HE Hd HP Hacc. pose proof (tenths_floor M E HE) as Ht.
  set (t := tenths M E) in *. set (P := 2 ^ (- E)) in *.
  assert (Hkey : P * (2 * (t * d - 10 * n)) =
                 20 * (Zpos M * d - n * P) - (20 * Zpos M - 2 * P * t) * d) by lia.
  set (u := Zpos M * d - n * P) in *. set (v := 20 * Zpos M - 2 * P * t) in *.
  assert (Hv : - P <= v < P) by lia.
  set (W := t * d - 10 * n) in *.
  assert (HW : P * Z.abs (2 * W) <= 10 * d + P * d).
  { rewrite <- (Z.abs_eq P) at 1 by lia. rewrite <- Z.abs_mul, Hkey.
    assert (Z.abs (20 * u) <= 10 * d) by lia.
    assert (Z.abs (v * d) <= P * d) by (rewrite Z.abs_mul, (Z.abs_eq d) by lia; nia).
    lia. }
  rewrite <- (Z.abs_eq 2), <- Z.abs_mul by lia. nia.
Qed.

Lemma tenths_rounds (M : positive) (E : Z) :
  rounds_to_tenths (S754_finite false M E) (tenths M E).
Proof.
  unfold rounds_to_tenths, to_Q, tenths.
  destruct (Z.leb_spec 0 E) as [HE | HE].
  - assert (H : (inject_Z (10 * Zpos M * 2 ^ E) == 10 * inject_Z (Zpos M * 2 ^ E))%Q).
    { rewrite <- (inject_Z_mult 10). apply inject_Z_injective. lia. }
    rewrite H. split; lra.
  - pose proof (tenths_floor M E HE) as Ht. unfold tenths in Ht.
    replace (0 <=? E) with false in Ht by (symmetry; apply Z.leb_gt; exact HE).
    set (t := (20 * Zpos M + 2 ^ (- E)) / 2 ^ (1 - E)) in *.
    assert (HP : 0 < 2 ^ (- E)) by (apply Z.pow_pos_nonneg; lia).
    set (P := 2 ^ (- E)) in *.
    unfold Qle, Qlt, Qminus, Qplus, Qmult, Qopp, inject_Z. cbn.
    rewrite Pos.mul_1_l, Z2Pos.id by exact HP. split; lia.
Qed.

Lemma size_below (p : positive) (k : Z) :
  0 <= k → Zpos p < 2 ^ k → Zpos (Pos.size p) <= k.
Proof.
  intros Hk Hp. destruct (size_bounds p) as [Hlo _].
  destruct (Z_le_gt_dec (Zpos (Pos.size p)) k) as [H | H]; [exact H |].
  assert (2 ^ k <= 2 ^ (Zpos (Pos.size p) - 1)) by (apply Z.pow_le_mono_r; lia).
  lia.
Qed.

(** Division by a power of ten and [toFixed(1)], for the two divisors
    of [formatNumber]: the text is that of [t / 10] for the [t] that the
    double quotient rounds to, and below the bound [2 ^ k] on [n] this
    [t / 10] is a nearest tenth of the true quotient [n / d]. *)
Lemma toFixed1_fdiv (n d : positive) (k : Z) :
  Zpos n < 2 ^ 53 → 4 <= Zpos d < 2 ^ 52 →
  ∃ t : Z,
    toFixed1 (fdiv (Zpos n) (Zpos d)) = one_decimal t ∧
    rounds_to_tenths (fdiv (Zpos n) (Zpos d)) t ∧
    (0 <= k → Zpos n < 2 ^ k →
     10 * Zpos d < 2 ^ (Zpos (Pos.size d) + 51 - k) →
     2 * Z.abs (t * Zpos d - 10 * Zpos n) <= Zpos d).
Proof.
  intros Hn Hd.
  destruct (fdiv_spec n d Hn Hd) as (M & E & Heq & HM & HE & Hsize & Hacc).
  exists (tenths M E). rewrite Heq. split; [reflexivity |].
  split; [apply tenths_rounds |].
  intros Hk Hnk Hroom. apply nearest_tenth; try assumption; try lia.
  pose proof (size_below n k Hk Hnk) as Hs.
  eapply Z.lt_le_trans; [exact Hroom |].
  apply Z.pow_le_mono_r; lia.
Qed.

End NumberFacts.

(** ** Statistics badges *)

Section StatsFacts.

Import Stats.
Local Open Scope Z_scope.

Lemma get_first (k1 k2 : string) (v1 v2 : value) :
  k1 ≠ k2 → get k1 (Some (object [ (k1, v1); (k2, v2) ])) = Ok v1.
Proof.
  intros Hne. unfold get, object. f_equal.
  destruct v1 as [j1 | ], v2 as [j2 | ]; cbn.
  - apply lookup_insert_eq.
  - apply lookup_insert_eq.
  - rewrite lookup_insert_ne by congruence. apply lookup_empty.
  - apply lookup_empty.
Qed.

Lemma get_second (k1 k2 : string) (v1 v2 : value) :
  k1 ≠ k2 → get k2 (Some (object [ (k1, v1); (k2, v2) ])) = Ok v2.
Proof.
  intros Hne. unfold get, object. f_equal.
  destruct v1 as [j1 | ], v2 as [j2 | ]; cbn.
  - rewrite lookup_insert_ne by exact Hne. apply lookup_insert_eq.
  - rewrite lookup_insert_ne by exact Hne. apply lookup_empty.
  - apply lookup_insert_eq.
  - apply lookup_empty.
Qed.

Lemma show_present (stat stat' text : string) (bs : gmap string string) :
  is_Some (show stat text bs !! stat') ↔ is_Some (bs !! stat').
Proof.
  unfold show. case_bool_decide as Hp; [| reflexivity].
  destruct (decide (stat = stat')) as [-> | Hne].
  - rewrite lookup_insert_eq. split; [intros _; exact Hp | intros _; eauto].
  - rewrite lookup_insert_ne by exact Hne. reflexivity.
Qed.

Lemma updateNpmUI_shows (downloads : value) (text : string) (w : world) :
  display downloads = Ok text →
  updateNpmUI downloads w = (Ok tt, with_badges (show "npm-downloads" text (badges w)) w).
Proof.
  intros Hd. unfold updateNpmUI, mbind, M_bind, bind, querySelector, show. cbn.
  case_bool_decide; cbn.
  - rewrite Hd. reflexivity.
  - destruct w; reflexivity.
Qed.

Lemma updateGitHubUI_shows (stats stars forks : value) (ts tf : string) (w : world) :
  get "stars" stats = Ok stars → display stars = Ok ts →
  get "forks" stats = Ok forks → display forks = Ok tf →
  updateGitHubUI stats w =
  (Ok tt, with_badges (show "github-forks" tf (show "github-stars" ts (badges w))) w).
Proof.
  intros Hs Hds Hf Hdf.
  unfold updateGitHubUI, mbind, M_bind, bind, querySelector. cbn.
  unfold show at 1.
  rewrite (bool_decide_ext _ _ (show_present "github-stars" "github-forks" ts (badges w))).
  unfold show.
  do 2 case_bool_decide; cbn; rewrite ?Hs, ?Hf; cbn; rewrite ?Hds, ?Hdf; cbn;
    try reflexivity; destruct w; reflexivity.
Qed.

Instance badges_stay_preorder : PreOrder badges_stay.
Proof.
  split.
  - intros w stat H. exact H.
  - intros w1 w2 w3 H12 H23 stat H. apply H23, H12, H.
Qed.

Instance ui_frame_preorder : PreOrder ui_frame.
Proof.
  split.
  - intros w. repeat split. reflexivity.
  - intros w1 w2 w3 (Hs & Hr & He & Hp) (Hs' & Hr' & He' & Hp').
    repeat split; try congruence. etransitivity; eassumption.
Qed.

Instance try_frame_preorder : PreOrder try_frame.
Proof.
  split.
  - intros w. split; reflexivity.
  - intros w1 w2 w3 (He & Hp) (He' & Hp').
    split; [congruence | etransitivity; eassumption].
Qed.

Instance request_frame_preorder : PreOrder request_frame.
Proof.
  split.
  - intros w. reflexivity.
  - intros w1 w2 w3 H12 H23. unfold request_frame in *. congruence.
Qed.


Lemma ui_request_frame (w w' : world) : ui_frame w w' → request_frame w w'.
Proof. intros (_ & Hr & _). exact Hr. Qed.

Section Keeps.

Context (R : world → world → Prop) `{!PreOrder R}.

Lemma keeps_ret {A : Type} (a : A) : keeps R (ret a).
Proof. intros w. reflexivity. Qed.

Lemma keeps_throw {A : Type} (err : error) : keeps R (throw (A := A) err).
Proof. intros w. reflexivity. Qed.

Lemma keeps_lift {A : Type} (r : result A) : keeps R (lift r).
Proof. intros w. reflexivity. Qed.

Lemma keeps_getItem (key : string) : keeps R (getItem key).
Proof. intros w. reflexivity. Qed.

Lemma keeps_querySelector (stat : string) : keeps R (querySelector stat).
Proof. intros w. reflexivity. Qed.

Lemma keeps_bind {A B : Type} (c : M A) (k : A → M B) :
  keeps R c → (∀ a, keeps R (k a)) → keeps R (c ≫= k).
Proof.
  intros Hc Hk w. unfold mbind, M_bind, bind.
  specialize (Hc w). destruct (c w) as [[a | err] w1]; cbn in *.
  - etransitivity; [exact Hc | apply Hk].
  - exact Hc.
Qed.

Lemma keeps_weaken (R' : world → world → Prop) {A : Type} (c : M A) :
  (∀ w w', R' w w' → R w w') → keeps R' c → keeps R c.
Proof. intros Hw Hc w. apply Hw, Hc. Qed.

End Keeps.

Lemma insert_stays (stat text : string) (w : world) :
  badges_stay w (snd (set_textContent stat text w)).
Proof.
  intros stat' Hp. cbn. destruct (decide (stat = stat')) as [-> | Hne].
  - rewrite lookup_insert_eq. eauto.
  - rewrite lookup_insert_ne by exact Hne. exact Hp.
Qed.

Lemma keeps_set_textContent (stat text : string) :
  keeps ui_frame (set_textContent stat text).
Proof.
  intros w. repeat split. apply insert_stays.
Qed.

(** Peels the binds of a computation, leaving its primitive steps. *)
Ltac keeps_step :=
  lazymatch goal with
  | |- keeps _ (_ ≫= _) => apply keeps_bind; [typeclasses eauto | | intros ?]
  | |- keeps _ (ret _) => apply keeps_ret; typeclasses eauto
  | |- keeps _ (throw _) => apply keeps_throw; typeclasses eauto
  | |- keeps _ (lift _) => apply keeps_lift; typeclasses eauto
  | |- keeps _ (getItem _) => apply keeps_getItem; typeclasses eauto
  | |- keeps _ (querySelector _) => apply keeps_querySelector; typeclasses eauto
  | |- keeps _ (if ?b then _ else _) => destruct b
  | |- keeps _ (match ?x with _ => _ end) => destruct x
  end.

Lemma keeps_updateNpmUI (downloads : value) : keeps ui_frame (updateNpmUI downloads).
Proof.
  unfold updateNpmUI. repeat keeps_step. apply keeps_set_textContent.
Qed.

Lemma keeps_updateGitHubUI (stats : value) : keeps ui_frame (updateGitHubUI stats).
Proof.
  unfold updateGitHubUI. repeat keeps_step; apply keeps_set_textContent.
Qed.


Lemma keeps_setItem_request (full : bool) (key : string) (v : item) :
  keeps request_frame (setItem full key v).
Proof. intros w. unfold setItem. destruct full; reflexivity. Qed.




Lemma keeps_updateGitHubUI_request (stats : value) :
  keeps request_frame (updateGitHubUI stats).
Proof.
  apply (keeps_weaken _ ui_frame); [apply ui_request_frame | apply keeps_updateGitHubUI].
Qed.

Lemma keeps_updateNpmUI_request (downloads : value) :
  keeps request_frame (updateNpmUI downloads).
Proof.
  apply (keeps_weaken _ ui_frame); [apply ui_request_frame | apply keeps_updateNpmUI].
Qed.

Instance storage_frame_preorder : PreOrder storage_frame.
Proof.
  split.
  - intros w. reflexivity.
  - intros w1 w2 w3 H12 H23. unfold storage_frame in *. congruence.
Qed.




Lemma bind_fetch {B : Type} (e : env) (url : string) (k : reply → M B) (w : world) :
  (fetch e url ≫= k) w =
  match answer e with
  | Unreachable => (Throw NetworkFailure, requested url w)
  | r => k r (requested url w)
  end.
Proof.
  unfold mbind, M_bind, bind, fetch, requested. destruct (answer e); reflexivity.
Qed.

Lemma refreshGitHubStats_requests (e : env) (key : string) (w : world) :
  requests (snd (refreshGitHubStats e key w)) =
  (requests w ++ [ "https://api.github.com/repos/Yeachan-Heo/oh-my-codex" ])%list.
Proof.
  unfold refreshGitHubStats. rewrite bind_fetch.
  destruct (answer e) as [ | ok body]; [reflexivity |].
  match goal with
  | |- requests (snd (?k (requested ?u w))) = _ =>
      change (request_frame (requested u w) (snd (k (requested u w))));
      generalize (requested u w)
  end.
  change (keeps request_frame
            (if negb (response_ok (Response ok body))
             then throw (Error "GitHub API failed")
             else
               data ← lift (response_json (Response ok body));
               stargazers_count ← lift (get "stargazers_count" (Some data));
               forks_count ← lift (get "forks_count" (Some data));
               setItem (storage_full e) key
                 (JSON_stringify
                    (object [ ("data", Some (object [ ("stars", stargazers_count);
                                                      ("forks", forks_count) ]));
                              ("timestamp", Some (JNum (now_stored e))) ])) ;;
               updateGitHubUI (Some (object [ ("stars", stargazers_count);
                                              ("forks", forks_count) ])))).
  repeat keeps_step;
    first [ apply keeps_setItem_request | apply keeps_updateGitHubUI_request ].
Qed.

Lemma refreshNpmDownloads_requests (e : env) (key : string) (w : world) :
  requests (snd (refreshNpmDownloads e key w)) =
  (requests w ++ [ "https://api.npmjs.org/downloads/point/last-month/oh-my-codex" ])%list.
Proof.
  unfold refreshNpmDownloads. rewrite bind_fetch.
  destruct (answer e) as [ | ok body]; [reflexivity |].
  match goal with
  | |- requests (snd (?k (requested ?u w))) = _ =>
      change (request_frame (requested u w) (snd (k (requested u w))));
      generalize (requested u w)
  end.
  change (keeps request_frame
            (if negb (response_ok (Response ok body))
             then throw (Error "npm API failed")
             else
               data ← lift (response_json (Response ok body));
               downloads ← lift (get "downloads" (Some data));
               setItem (storage_full e) key
                 (JSON_stringify
                    (object [ ("data", downloads);
                              ("timestamp", Some (JNum (now_stored e))) ])) ;;
               updateNpmUI downloads)).
  repeat keeps_step;
    first [ apply keeps_setItem_request | apply keeps_updateNpmUI_request ].
Qed.







Lemma failedGitHubStats_run (w : world) :
  failedGitHubStats w =
  (Ok tt,
   {| storage := storage w;
      badges := show "github-forks" dash (show "github-stars" dash (badges w));
      requests := requests w;
      errors := (errors w ++ [ "[OMX] Failed to fetch GitHub stats:" ])%list |}).
Proof.
  unfold failedGitHubStats, mbind, M_bind, bind, console_error.
  erewrite updateGitHubUI_shows.
  - reflexivity.
  - apply get_first. discriminate.
  - reflexivity.
  - apply get_second. discriminate.
  - reflexivity.
Qed.

Lemma failedNpmDownloads_run (w : world) :
  failedNpmDownloads w =
  (Ok tt,
   {| storage := storage w;
      badges := show "npm-downloads" dash (badges w);
      requests := requests w;
      errors := (errors w ++ [ "[OMX] Failed to fetch npm downloads:" ])%list |}).
Proof.
  unfold failedNpmDownloads, mbind, M_bind, bind, console_error.
  erewrite updateNpmUI_shows; reflexivity.
Qed.


Lemma show_other (stat stat' text : string) (bs : gmap string string) :
  stat ≠ stat' → show stat text bs !! stat' = bs !! stat'.
Proof.
  intros Hne. unfold show. case_bool_decide; [| reflexivity].
  apply lookup_insert_ne, Hne.
Qed.

Lemma entry_read (e : env) (data : value) (ts : Z) :
  get "data" (Some (object [ ("data", data); ("timestamp", Some (JNum ts)) ])) = Ok data ∧
  get "timestamp" (Some (object [ ("data", data); ("timestamp", Some (JNum ts)) ])) =
    Ok (Some (JNum ts)) ∧
  fresh e (Some (JNum ts)) = Ok (now e - ts <? cacheTTL).
Proof.
  split; [apply get_first; discriminate |].
  split; [apply get_second; discriminate | reflexivity].
Qed.

(** A young record: the [try] block is the rendering of its payload. *)
Lemma fetchGitHubStats_hit (e : env) (w : world) (data : value) (ts : Z) :
  storage w !! "omx-github-stats" = Some (entry data ts) →
  now e - ts < cacheTTL →
  fetchGitHubStats e w =
  match updateGitHubUI data w with
  | (Ok _, w1) => (Ok tt, w1)
  | (Throw _, w1) => failedGitHubStats w1
  end.
Proof.
  intros Hc Hy. destruct (entry_read e data ts) as (Hd & Ht & Hf).
  apply Z.ltb_lt in Hy. rewrite Hy in Hf.
  unfold fetchGitHubStats, try_catch, mbind, M_bind, bind, getItem, lift.
  rewrite Hc. unfold entry, JSON_stringify, JSON_parse.
  rewrite Hd, Ht, Hf.
  destruct (updateGitHubUI data w) as [[[] | err] w1]; reflexivity.
Qed.

Lemma fetchNpmDownloads_hit (e : env) (w : world) (data : value) (ts : Z) :
  storage w !! "omx-npm-downloads" = Some (entry data ts) →
  now e - ts < cacheTTL →
  fetchNpmDownloads e w =
  match updateNpmUI data w with
  | (Ok _, w1) => (Ok tt, w1)
  | (Throw _, w1) => failedNpmDownloads w1
  end.
Proof.
  intros Hc Hy. destruct (entry_read e data ts) as (Hd & Ht & Hf).
  apply Z.ltb_lt in Hy. rewrite Hy in Hf.
  unfold fetchNpmDownloads, try_catch, mbind, M_bind, bind, getItem, lift.
  rewrite Hc. unfold entry, JSON_stringify, JSON_parse.
  rewrite Hd, Ht, Hf.
  destruct (updateNpmUI data w) as [[[] | err] w1]; reflexivity.
Qed.

(** No usable record: the [try] block is the refresh. *)
Lemma fetchGitHubStats_miss (e : env) (w : world) :
  misses "omx-github-stats" e w →
  fetchGitHubStats e w =
  match refreshGitHubStats e "omx-github-stats" w with
  | (Ok a, w1) => (Ok a, w1)
  | (Throw _, w1) => failedGitHubStats w1
  end.
Proof.
  intros [Hc | (data & ts & Hc & Hold)];
    unfold fetchGitHubStats, try_catch, mbind, M_bind, bind, getItem, lift;
    rewrite Hc; [reflexivity |].
  destruct (entry_read e data ts) as (Hd & Ht & Hf).
  replace (now e - ts <? cacheTTL) with false in Hf
    by (symmetry; apply Z.ltb_ge; exact Hold).
  unfold entry, JSON_stringify, JSON_parse. rewrite Hd, Ht, Hf. reflexivity.
Qed.

Lemma fetchNpmDownloads_miss (e : env) (w : world) :
  misses "omx-npm-downloads" e w →
  fetchNpmDownloads e w =
  match refreshNpmDownloads e "omx-npm-downloads" w with
  | (Ok a, w1) => (Ok a, w1)
  | (Throw _, w1) => failedNpmDownloads w1
  end.
Proof.
  intros [Hc | (data & ts & Hc & Hold)];
    unfold fetchNpmDownloads, try_catch, mbind, M_bind, bind, getItem, lift;
    rewrite Hc; [reflexivity |].
  destruct (entry_read e data ts) as (Hd & Ht & Hf).
  replace (now e - ts <? cacheTTL) with false in Hf
    by (symmetry; apply Z.ltb_ge; exact Hold).
  unfold entry, JSON_stringify, JSON_parse. rewrite Hd, Ht, Hf. reflexivity.
Qed.

Lemma github_hit_requests (e : env) (w : world) (data : value) (ts : Z) :
  storage w !! "omx-github-stats" = Some (entry data ts) →
  now e - ts < cacheTTL →
  requests (snd (fetchGitHubStats e w)) = requests w.
Proof.
  intros Hc Hy. rewrite (fetchGitHubStats_hit e w data ts Hc Hy).
  pose proof (keeps_updateGitHubUI_request data w) as Hk.
  destruct (updateGitHubUI data w) as [[[] | err] w1]; cbn in *; [exact Hk |].
  rewrite failedGitHubStats_run. exact Hk.
Qed.

Lemma npm_hit_requests (e : env) (w : world) (data : value) (ts : Z) :
  storage w !! "omx-npm-downloads" = Some (entry data ts) →
  now e - ts < cacheTTL →
  requests (snd (fetchNpmDownloads e w)) = requests w.
Proof.
  intros Hc Hy. rewrite (fetchNpmDownloads_hit e w data ts Hc Hy).
  pose proof (keeps_updateNpmUI_request data w) as Hk.
  destruct (updateNpmUI data w) as [[[] | err] w1]; cbn in *; [exact Hk |].
  rewrite failedNpmDownloads_run. exact Hk.
Qed.

Lemma github_miss_requests (e : env) (w : world) :
  misses "omx-github-stats" e w →
  requests (snd (fetchGitHubStats e w)) =
  (requests w ++ [ "https://api.github.com/repos/Yeachan-Heo/oh-my-codex" ])%list.
Proof.
  intros Hm. rewrite (fetchGitHubStats_miss e w Hm).
  pose proof (refreshGitHubStats_requests e "omx-github-stats" w) as Hk.
  destruct (refreshGitHubStats e "omx-github-stats" w) as [[[] | err] w1];
    cbn in *; [exact Hk |].
  rewrite failedGitHubStats_run. exact Hk.
Qed.

Lemma npm_miss_requests (e : env) (w : world) :
  misses "omx-npm-downloads" e w →
  requests (snd (fetchNpmDownloads e w)) =
  (requests w ++ [ "https://api.npmjs.org/downloads/point/last-month/oh-my-codex" ])%list.
Proof.
  intros Hm. rewrite (fetchNpmDownloads_miss e w Hm).
  pose proof (refreshNpmDownloads_requests e "omx-npm-downloads" w) as Hk.
  destruct (refreshNpmDownloads e "omx-npm-downloads" w) as [[[] | err] w1];
    cbn in *; [exact Hk |].
  rewrite failedNpmDownloads_run. exact Hk.
Qed.

(** C1. Each fetcher decides on the request from the cache alone.  With
    a record under its key that is younger than five minutes it renders
    the payload of the record (each count through [formatNumber], an
    unavailable one as a dash), touches neither storage nor console, and
    issues no request, whatever the payload is.  With no record under
    its key, or one whose age is five minutes or more, it issues exactly
    one request, a GET to its endpoint. *)
Theorem cache_decides_request (e : env) (w : world) :
  (∀ (stars forks : value) (ts : Z) (text_stars text_forks : string),
     storage w !! "omx-github-stats" =
       Some (entry (Some (object [ ("stars", stars); ("forks", forks) ])) ts) →
     now e - ts < cacheTTL →
     display stars = Ok text_stars → display forks = Ok text_forks →
     fetchGitHubStats e w =
     (Ok tt, with_badges (show "github-forks" text_forks
                            (show "github-stars" text_stars (badges w))) w)) ∧
  (∀ (data : value) (ts : Z),
     storage w !! "omx-github-stats" = Some (entry data ts) →
     now e - ts < cacheTTL →
     requests (snd (fetchGitHubStats e w)) = requests w) ∧
  (misses "omx-github-stats" e w →
     requests (snd (fetchGitHubStats e w)) =
     (requests w ++ [ "https://api.github.com/repos/Yeachan-Heo/oh-my-codex" ])%list) ∧
  (∀ (downloads : value) (ts : Z) (text : string),
     storage w !! "omx-npm-downloads" = Some (entry downloads ts) →
     now e - ts < cacheTTL →
     display downloads = Ok text →
     fetchNpmDownloads e w =
     (Ok tt, with_badges (show "npm-downloads" text (badges w)) w)) ∧
  (∀ (data : value) (ts : Z),
     storage w !! "omx-npm-downloads" = Some (entry data ts) →
     now e - ts < cacheTTL →
     requests (snd (fetchNpmDownloads e w)) = requests w) ∧
  (misses "omx-npm-downloads" e w →
     requests (snd (fetchNpmDownloads e w)) =
     (requests w ++ [ "https://api.npmjs.org/downloads/point/last-month/oh-my-codex" ])%list).
Proof.
  split; [| split; [| split; [| split; [| split]]]].
  - intros stars forks ts t1 t2 Hc Hy Hs Hf.
    rewrite (fetchGitHubStats_hit e w _ ts Hc Hy).
    rewrite (updateGitHubUI_shows _ stars forks t1 t2 w); try assumption.
    + reflexivity.
    + apply get_first. discriminate.
    + apply get_second. discriminate.
  - apply github_hit_requests.
  - apply github_miss_requests.
  - intros downloads ts text Hc Hy Hd.
    rewrite (fetchNpmDownloads_hit e w _ ts Hc Hy).
    rewrite (updateNpmUI_shows downloads text w Hd). reflexivity.
  - apply npm_hit_requests.
  - apply npm_miss_requests.
Qed.

Lemma cache_decides_request_witness :
  fetchGitHubStats (env_offline 240000) (world_cached 0) =
    (Ok tt, with_badges (show "github-forks" "999"
                           (show "github-stars" "1.5k" (badges (world_cached 0))))
                        (world_cached 0)) ∧
  requests (snd (fetchGitHubStats (env_offline 240000) (world_cached 0))) = [] ∧
  requests (snd (fetchGitHubStats (env_offline 360000) (world_cached 0))) =
    [ "https://api.github.com/repos/Yeachan-Heo/oh-my-codex" ] ∧
  fetchNpmDownloads (env_offline 240000) (world_cached 0) =
    (Ok tt, with_badges (show "npm-downloads" "2.5M" (badges (world_cached 0)))
                        (world_cached 0)) ∧
  requests (snd (fetchNpmDownloads (env_offline 240000) (world_cached 0))) = [] ∧
  requests (snd (fetchNpmDownloads (env_offline 360000) world0)) =
    [ "https://api.npmjs.org/downloads/point/last-month/oh-my-codex" ].
Proof.
  split; [| split; [| split; [| split; [| split]]]].
  - apply (proj1 (cache_decides_request (env_offline 240000) (world_cached 0))
             (Some (JNum 1500)) (Some (JNum 999)) 0);
      reflexivity.
  - apply (proj1 (proj2 (cache_decides_request (env_offline 240000) (world_cached 0)))
             (Some (object [ ("stars", Some (JNum 1500)); ("forks", Some (JNum 999)) ])) 0);
      reflexivity.
  - apply (proj1 (proj2 (proj2
             (cache_decides_request (env_offline 360000) (world_cached 0))))).
    right. eexists _, 0. split; [reflexivity | discriminate].
  - apply (proj1 (proj2 (proj2 (proj2
             (cache_decides_request (env_offline 240000) (world_cached 0)))))
             (Some (JNum 2500000)) 0);
      reflexivity.
  - apply (proj1 (proj2 (proj2 (proj2 (proj2
             (cache_decides_request (env_offline 240000) (world_cached 0))))))
             (Some (JNum 2500000)) 0);
      reflexivity.
  - apply (proj2 (proj2 (proj2 (proj2 (proj2
             (cache_decides_request (env_offline 360000) world0)))))).
    left. reflexivity.
Defined.







End StatsFacts.

(** ** Rendering of counts *)

Section RenderingFacts.

Import Stats.
Local Open Scope Z_scope.

Lemma formatNumber_thousands (n : Z) :
  1000 <= n < 1000000 →
  ∃ t : Z,
    formatNumber (Some (JNum n)) = Ok (one_decimal t +:+ "k") ∧
    rounds_to_tenths (fdiv n 1000) t ∧
    Z.abs (100 * t - n) <= 50.
Proof.
  intros Hn. destruct n as [ | p | p]; try lia.
  destruct (toFixed1_fdiv p 1000 20 ltac:(lia) ltac:(lia)) as (t & Htext & Hround & Hnear).
  exists t. split; [| split; [exact Hround |]].
  - unfold formatNumber.
    replace (1000000 <=? Zpos p) with false by (symmetry; apply Z.leb_gt; lia).
    replace (1000 <=? Zpos p) with true by (symmetry; apply Z.leb_le; lia).
    rewrite Htext. reflexivity.
  - specialize (Hnear ltac:(lia) ltac:(lia) ltac:(vm_compute; reflexivity)). lia.
Qed.

Lemma formatNumber_millions (n : Z) :
  1000000 <= n < 2 ^ 53 →
  ∃ t : Z,
    formatNumber (Some (JNum n)) = Ok (one_decimal t +:+ "M") ∧
    rounds_to_tenths (fdiv n 1000000) t ∧
    (n < 2 ^ 47 → Z.abs (100000 * t - n) <= 50000).
Proof.
  intros Hn. destruct n as [ | p | p]; try lia.
  destruct (toFixed1_fdiv p 1000000 47 ltac:(lia) ltac:(lia)) as (t & Htext & Hround & Hnear).
  exists t. split; [| split; [exact Hround |]].
  - unfold formatNumber.
    replace (1000000 <=? Zpos p) with true by (symmetry; apply Z.leb_le; lia).
    rewrite Htext. reflexivity.
  - intros Hsmall.
    specialize (Hnear ltac:(lia) Hsmall ltac:(vm_compute; reflexivity)). lia.
Qed.





(** Where the quotient falls halfway between two tenths, the double
    decides: 1.15 is stored just below, 1.25 exactly, 999.95 just above. *)
Example formatNumber_halfway :
  formatNumber (Some (JNum 1150000)) = Ok "1.1M" ∧
  formatNumber (Some (JNum 1250)) = Ok "1.3k" ∧
  formatNumber (Some (JNum 999950)) = Ok "1000.0k" ∧
  formatNumber (Some (JNum 0)) = Ok "0".
Proof. repeat split; vm_compute; reflexivity. Qed.

End RenderingFacts.

(** ** Sticky navigation: the scrolled mark and the throttle *)

Section NavMoreFacts.

Import Nav.

Lemma elem_add (c d : string) (cl : gset string) :
  c ∈ classList_add d cl ↔ c ∈ cl ∨ c = d.
Proof. unfold classList_add. rewrite elem_of_union, elem_of_singleton. tauto. Qed.

Lemma elem_remove (c d : string) (cl : gset string) :
  c ∈ classList_remove d cl ↔ c ∈ cl ∧ c ≠ d.
Proof. unfold classList_remove. rewrite elem_of_difference, elem_of_singleton. tauto. Qed.

(** X1. One update of the sticky navigation at offset [y] leaves the bar
    marked [scrolled] exactly when [y > 50], whatever the direction and
    whatever the bar carried before; of the bar's other classes only
    [hidden] can change. *)
Theorem handleNavScroll_scrolled (y : Q) (p : page) :
  ("scrolled" ∈ nav (handleNavScroll y p) ↔ (50 < y)%Q) ∧
  (∀ c : string, c ≠ "scrolled" → c ≠ "hidden" →
     (c ∈ nav (handleNavScroll y p) ↔ c ∈ nav p)).
Proof.
  pose proof (js_gt_lt y 50) as Hs.
  assert (Hne : "scrolled" ≠ "hidden") by discriminate.
  unfold handleNavScroll.
  destruct (js_gt y (lastScrollY (app p)) && js_gt y 100);
    destruct (js_gt y 50); cbn;
    (split; [| intros c H1 H2]);
    rewrite ?elem_add, ?elem_remove, ?elem_add, ?elem_remove;
    intuition (try congruence; try discriminate).
Qed.

Lemma handleNavScroll_scrolled_witness :
  "scrolled" ∈ nav (handleNavScroll 51 {| app := AppState_init; nav := {[ "nav" ]} |}) ∧
  "nav" ∈ nav (handleNavScroll 51 {| app := AppState_init; nav := {[ "nav" ]} |}).
Proof.
  split.
  - apply (proj1 (handleNavScroll_scrolled 51 _)). reflexivity.
  - apply (proj2 (handleNavScroll_scrolled 51 _) "nav"); try discriminate.
    cbn. apply elem_of_singleton. reflexivity.
Defined.

Import Throttle.

Lemma balanced_step (e : event) (t : throttled) : balanced t → balanced (step e t).
Proof.
  unfold balanced. intros Hb. destruct e as [ | y]; cbn.
  - destruct (ticking t) eqn:E; rewrite ?E; cbn; [exact Hb | rewrite Hb; reflexivity].
  - rewrite Hb. destruct (ticking t) eqn:E; cbn; rewrite ?E; reflexivity.
Qed.

Lemma balanced_run (es : list event) (t : throttled) : balanced t → balanced (run es t).
Proof.
  unfold run. revert t. induction es as [ | e es IH]; intros t Hb; cbn; [exact Hb |].
  apply IH, balanced_step, Hb.
Qed.

Lemma frame_step (y : Q) (t : throttled) :
  balanced t →
  step (Frame y) t = attach (if ticking t then handleNavScroll y (view t) else view t).
Proof.
  unfold balanced. intros Hb. cbn. rewrite Hb.
  destruct t as [tk fr v]. cbn in *. destruct tk; reflexivity.
Qed.

Lemma scrolls_while_ticking (n : nat) (t : throttled) :
  ticking t = true → run (repeat Scroll n) t = t.
Proof.
  intros Ht. induction n as [ | n IH]; cbn; [reflexivity |].
  rewrite Ht. exact IH.
Qed.

(** X2. The scroll listener coalesces: after any sequence of scroll
    events and frames there is at most one frame callback queued, and
    one is queued exactly while [ticking] is set; so a frame runs
    [handleNavScroll] once if anything was scrolled since the last frame
    and not at all otherwise, and a burst of scroll events followed by a
    frame is one update, at the offset read in that frame. *)
Theorem scroll_listener_coalesces (es : list event) (p : page) :
  let t := run es (attach p) in
  (frames t <= 1)%nat ∧
  (ticking t = true ↔ frames t = 1%nat) ∧
  (∀ y : Q,
     step (Frame y) t =
     attach (if ticking t then handleNavScroll y (view t) else view t)) ∧
  (∀ (n : nat) (y : Q),
     run (repeat Scroll (S n) ++ [ Frame y ]) t =
     attach (handleNavScroll y (view t))).
Proof.
  intros t.
  assert (Hb : balanced t) by (apply balanced_run; reflexivity).
  split; [| split; [| split]].
  - unfold balanced in Hb. rewrite Hb. destruct (ticking t); lia.
  - unfold balanced in Hb. rewrite Hb. destruct (ticking t); split; congruence.
  - intros y. apply frame_step, Hb.
  - intros n y. unfold run at 1. rewrite fold_left_app.
    change (fold_left (fun t e => step e t) (repeat Scroll (S n)) t)
      with (run (repeat Scroll n) (step Scroll t)).
    assert (Ht : ticking (step Scroll t) = true)
      by (cbn; destruct (ticking t) eqn:E; [exact E | reflexivity]).
    rewrite (scrolls_while_ticking n _ Ht). cbn [fold_left].
    rewrite frame_step by (apply balanced_step, Hb). rewrite Ht.
    f_equal. f_equal. cbn. destruct (ticking t); reflexivity.
Qed.

End NavMoreFacts.

(** ** Mobile menu: what the handlers compose to *)

Section MenuMoreFacts.

Import Menu MenuMore.

Lemma add_add (c : string) (cl : gset string) :
  classList_add c (classList_add c cl) = classList_add c cl.
Proof.
  apply set_eq. intros x. rewrite !elem_add. tauto.
Qed.

Lemma add_remove (c : string) (cl : gset string) :
  classList_add c (classList_remove c cl) = classList_add c cl.
Proof.
  apply set_eq. intros x. rewrite !elem_add, elem_remove.
  destruct (decide (x = c)); tauto.
Qed.

Lemma remove_add (c : string) (cl : gset string) :
  classList_remove c (classList_add c cl) = classList_remove c cl.
Proof.
  apply set_eq. intros x. rewrite !elem_remove, elem_add. tauto.
Qed.

Lemma remove_remove (c : string) (cl : gset string) :
  classList_remove c (classList_remove c cl) = classList_remove c cl.
Proof.
  apply set_eq. intros x. rewrite !elem_remove. tauto.
Qed.

Lemma add_present (c : string) (cl : gset string) :
  c ∈ cl → classList_add c cl = cl.
Proof.
  intros Hc. apply set_eq. intros x. rewrite elem_add.
  split; [intros [H | ->]; assumption | tauto].
Qed.

(** Opening and closing absorb whatever was done before. *)
Lemma open_close_laws (m : menu) :
  closeMobileMenu (closeMobileMenu m) = closeMobileMenu m ∧
  closeMobileMenu (openMobileMenu m) = closeMobileMenu m ∧
  openMobileMenu (closeMobileMenu m) = openMobileMenu m ∧
  openMobileMenu (openMobileMenu m) = openMobileMenu m.
Proof.
  destruct m as [a l h o b].
  unfold closeMobileMenu, openMobileMenu, set_mobileMenuOpen. cbn.
  rewrite !add_add, !add_remove, !remove_add, !remove_remove.
  destruct o as [o | ]; cbn;
    rewrite ?add_add, ?add_remove, ?remove_add, ?remove_remove; repeat split.
Qed.

Lemma handle_cases (e : event) (m : menu) :
  handle e m = m ∨ handle e m = closeMobileMenu m ∨ handle e m = openMobileMenu m.
Proof.
  destruct e as [ | | | key]; cbn.
  - unfold toggleMobileMenu. destruct (mobileMenuOpen (app m)); auto.
  - destruct (overlay m); auto.
  - auto.
  - destruct (String.eqb key "Escape" && mobileMenuOpen (app m)); auto.
Qed.

(** X3. Whatever events arrive, in whatever order, the menu is in one
    of three states: as it was found, closed, or opened, the last two
    being what a single [closeMobileMenu] or [openMobileMenu] makes of
    the menu as it was found.  The handlers never leave it half styled
    and never accumulate anything. *)
Theorem menu_settles (es : list event) (m : menu) :
  run es m = m ∨ run es m = closeMobileMenu m ∨ run es m = openMobileMenu m.
Proof.
  unfold run.
  assert (Hgen : ∀ x, x = m ∨ x = closeMobileMenu m ∨ x = openMobileMenu m →
            fold_left (fun m e => handle e m) es x = m ∨
            fold_left (fun m e => handle e m) es x = closeMobileMenu m ∨
            fold_left (fun m e => handle e m) es x = openMobileMenu m).
  { induction es as [ | e es IH]; intros x Hx; cbn; [exact Hx |].
    apply IH. destruct (open_close_laws m) as (Hcc & Hco & Hoc & Hoo).
    destruct (handle_cases e x) as [-> | [-> | ->]]; [exact Hx | |];
      destruct Hx as [-> | [-> | ->]]; rewrite ?Hcc, ?Hco, ?Hoc, ?Hoo; auto. }
  apply Hgen. auto.
Qed.

Lemma open_when_open (m : menu) :
  consistent m → mobileMenuOpen (app m) = true → openMobileMenu m = m.
Proof.
  intros [Ho _] Hf. destruct (proj1 Ho Hf) as (Hl & Hh & Hov & Hb).
  destruct m as [a l h o b]. destruct a as [i d y v f].
  unfold active, openMobileMenu, set_mobileMenuOpen in *. cbn in *.
  rewrite Hf, Hb, (add_present _ l Hl), (add_present _ h Hh).
  destruct o as [o | ]; cbn; [| reflexivity].
  rewrite (add_present _ o (Hov o eq_refl)). reflexivity.
Qed.

(** X4. On a menu whose styling agrees with its flag, two clicks on the
    hamburger in a row restore the menu exactly: class lists, body
    overflow and flag are what they were. *)
Theorem hamburger_twice (m : menu) :
  consistent m → handle HamburgerClick (handle HamburgerClick m) = m.
Proof.
  intros Hc. destruct (open_close_laws m) as (_ & Hco & Hoc & _).
  cbn. unfold toggleMobileMenu at 2.
  destruct (mobileMenuOpen (app m)) eqn:Hf.
  - unfold toggleMobileMenu. cbn. rewrite Hoc. apply open_when_open; assumption.
  - unfold toggleMobileMenu. cbn. rewrite Hco. apply close_when_closed; assumption.
Qed.

Lemma menu1_consistent : consistent menu1.
Proof.
  split; [split |].
  - intros H. discriminate H.
  - intros (H & _). unfold active in H. cbn in H.
    apply elem_of_singleton in H. discriminate H.
  - intros _. unfold styled_closed, active. cbn.
    repeat split; try (intros H; apply elem_of_singleton in H; discriminate H).
    intros o Ho. injection Ho as <-. intros H.
    apply elem_of_singleton in H. discriminate H.
Qed.

Lemma hamburger_twice_witness :
  handle HamburgerClick (handle HamburgerClick menu1) = menu1.
Proof. apply hamburger_twice, menu1_consistent. Defined.

(** X5. The two controllers that share the status record keep to their
    own fields: an update of the sticky navigation leaves [initialized]
    and [mobileMenuOpen] alone, and a menu event leaves [initialized],
    [scrollDirection], [lastScrollY] and [navVisible] alone. *)
Theorem status_fields_private (y : Q) (p : Nav.page) (e : event) (m : menu) :
  initialized (Nav.app (Nav.handleNavScroll y p)) = initialized (Nav.app p) ∧
  mobileMenuOpen (Nav.app (Nav.handleNavScroll y p)) = mobileMenuOpen (Nav.app p) ∧
  initialized (app (handle e m)) = initialized (app m) ∧
  scrollDirection (app (handle e m)) = scrollDirection (app m) ∧
  lastScrollY (app (handle e m)) = lastScrollY (app m) ∧
  navVisible (app (handle e m)) = navVisible (app m).
Proof.
  split; [| split].
  - unfold Nav.handleNavScroll.
    destruct (js_gt y (lastScrollY (Nav.app p)) && js_gt y 100); reflexivity.
  - unfold Nav.handleNavScroll.
    destruct (js_gt y (lastScrollY (Nav.app p)) && js_gt y 100); reflexivity.
  - destruct (handle_cases e m) as [-> | [-> | ->]]; repeat split.
Qed.

End MenuMoreFacts.

(** ** Copy buttons: what the timers and the console add up to *)

Section CopyMoreFacts.

Import Copy CopyMore.
Local Open Scope N_scope.

(** X6. No restore stays pending: on a page that started with nothing
    pending, after any sequence of clicks and waits, 2000 ms without a
    click empty the timer queue. *)
Theorem copy_timers_drain (es : list event) (s : state) (d : N) :
  timely s → 2000 <= d → timers (advance d (run es s)) = [].
Proof.
  intros Ht Hd. pose proof (timely_run es s Ht) as Hr.
  unfold advance. cbn. apply filter_none.
  unfold timely in Hr. eapply Forall_impl; [exact Hr |].
  intros t Hdue. cbn in Hdue. apply negb_false_iff, N.leb_le. lia.
Qed.

Lemma copy_timers_drain_witness :
  timers (advance 2000 (run [Click 0 true; Wait 500; Click 0 false] page1)) = [].
Proof.
  apply copy_timers_drain; [exact page1_timely | discriminate].
Defined.

(** X7. A second click while the feedback of the first still shows
    takes the feedback text for the original: once every restore has
    run, a button clicked twice within 2000 ms, the second write
    succeeding, is left labelled [Copied!] (or [Failed], if the first
    write failed) for good; if the second write fails it is left
    labelled [Copy]. *)
Theorem copy_overlap_sticks
        (s : state) (i : nat) (b : button) (ok1 ok2 : bool) (d1 d : N) :
  buttons s !! i = Some b → hasCode b = true → timely s → quiet i s →
  d1 < 2000 → 2000 <= d →
  label i (advance d (click i ok2 (advance d1 (click i ok1 s)))) =
  Some (if ok2 then (if ok1 then "Copied!" else "Failed") else "Copy").
Proof.
  intros Hb Hc Ht Hq H1 Hd.
  pose proof (click_wait s i ok1 b d1 Hb Hc Hq) as Hw.
  replace (2000 <=? d1) with false in Hw by (symmetry; apply N.leb_gt; exact H1).
  assert (Ht1 : timely (advance d1 (click i ok1 s)))
    by (apply timely_advance, timely_click, Ht).
  destruct (click_settles _ i ok2 _ d Hw Hc Ht1 Hd) as [b' Hb'].
  unfold label. rewrite Hb'. destruct ok2, ok1; reflexivity.
Qed.

Lemma copy_overlap_sticks_witness :
  label 0 (advance 2000 (click 0 true (advance 1000 (click 0 true page1)))) =
  Some "Copied!".
Proof.
  apply (copy_overlap_sticks page1 0 _ true true 1000 2000 eq_refl eq_refl
           page1_timely page1_quiet); [reflexivity | discriminate].
Defined.

Lemma codes_fire (t : timer) (bs : list button) :
  hasCode <$> fire t bs = hasCode <$> bs.
Proof.
  unfold fire. destruct (bs !! target t) as [b | ] eqn:Hb; [| reflexivity].
  rewrite list_fmap_insert.
  apply list_insert_id. rewrite list_lookup_fmap, Hb.
  destruct (action t); reflexivity.
Qed.

Lemma codes_step (e : event) (s : state) :
  hasCode <$> buttons (step e s) = hasCode <$> buttons s.
Proof.
  destruct e as [i ok | d]; cbn.
  - unfold click. destruct (buttons s !! i) as [b | ] eqn:Hb; [| reflexivity].
    destruct (hasCode b) eqn:Hc; cbn; [| reflexivity].
    destruct ok; cbn; rewrite list_fmap_insert; apply list_insert_id;
      rewrite list_lookup_fmap, Hb; cbn; rewrite Hc; reflexivity.
  - generalize (List.filter (is_due (now s + d)) (timers s)).
    intros ts. generalize (buttons s).
    induction ts as [ | t ts IH]; intros bs; cbn; [reflexivity |].
    rewrite IH. apply codes_fire.
Qed.

Lemma errors_step (e : event) (s : state) :
  errors (step e s) =
  (errors s ++ repeat "[OMX] Failed to copy:" (rejected (hasCode <$> buttons s) [ e ]))%list.
Proof.
  destruct e as [i ok | d]; cbn; [| symmetry; apply app_nil_r].
  unfold click, rejected. cbn. rewrite list_lookup_fmap.
  destruct (buttons s !! i) as [b | ]; cbn.
  - destruct (hasCode b), ok; cbn; rewrite ?app_nil_r; reflexivity.
  - destruct ok; cbn; rewrite ?app_nil_r; reflexivity.
Qed.

(** X8. The listeners neither add nor remove buttons or code blocks, and
    they write to the console once for each rejected clipboard write and
    never otherwise: a successful copy, a click that finds no code block
    and a restore are all silent. *)
Theorem copy_console (es : list event) (s : state) :
  hasCode <$> buttons (run es s) = hasCode <$> buttons s ∧
  errors (run es s) =
  (errors s ++ repeat "[OMX] Failed to copy:" (rejected (hasCode <$> buttons s) es))%list.
Proof.
  unfold run. revert s.
  induction es as [ | e es IH]; intros s; cbn.
  - split; [reflexivity | symmetry; apply app_nil_r].
  - destruct (IH (step e s)) as [Hc He]. rewrite Hc, He, codes_step, errors_step.
    split; [reflexivity |].
    rewrite <- app_assoc, <- repeat_app. f_equal. f_equal.
    unfold rejected. cbn.
    destruct e as [j [ | ] | d]; cbn; try reflexivity.
    destruct (bool_decide _); reflexivity.
Qed.

End CopyMoreFacts.

(** ** Anchor scrolling: default action and history *)

Section AnchorMoreFacts.

Import Anchor AnchorMore.

(** X9. The listener prevents the default jump exactly when the link is
    not the bare hash and its [href], as a selector, finds an element;
    when it does not prevent it, it has done nothing at all; it throws
    exactly when the link is not the bare hash and the selector is
    rejected, with the selector engine's exception; and in no case does
    it write the scroll offset itself, the move being left to the smooth
    scroll. *)
Theorem anchor_prevents_default (href : string) (doc : document) (b : browser) :
  (defaultPrevented (click href doc b) = true ↔
   href ≠ "#" ∧ ∃ el : element, querySelector doc href = Ok (Some el)) ∧
  (defaultPrevented (click href doc b) = false → page (click href doc b) = b) ∧
  (∀ err : error,
     thrown (click href doc b) = Some err ↔
     href ≠ "#" ∧ querySelector doc href = Throw err) ∧
  scrollY (page (click href doc b)) = scrollY b.
Proof.
  unfold click. destruct (String.eqb_spec href "#") as [-> | Hne]; cbn.
  - repeat split; try reflexivity; try discriminate;
      intros [H _]; congruence.
  - destruct (querySelector doc href) as [[el | ] | err] eqn:Hq; cbn.
    + repeat split; try discriminate; eauto.
      * intros [_ H]. discriminate H.
      * destruct (hasPushState b); reflexivity.
    + repeat split; try discriminate.
      * intros [_ [el H]]. discriminate H.
      * intros [_ H]. discriminate H.
    + repeat split; try discriminate; try congruence.
      * intros [_ [el H]]. discriminate H.
      * intros [_ H]. congruence.
Qed.

Lemma anchor_prevents_default_witness :
  defaultPrevented (click "#features" doc0 browser0) = true ∧
  page (click "#" doc0 browser0) = browser0.
Proof.
  split.
  - apply (proj1 (anchor_prevents_default "#features" doc0 browser0)).
    split; [discriminate | eexists; reflexivity].
  - apply (proj1 (proj2 (anchor_prevents_default "#" doc0 browser0))). reflexivity.
Defined.

Lemma trail_click (h : string * document) (b : browser) :
  hasPushState b = true → scrolls h →
  trail (page (click (fst h) (snd h) b)) = (trail b ++ [ fst h ])%list ∧
  forward (page (click (fst h) (snd h) b)) = [] ∧
  hasPushState (page (click (fst h) (snd h) b)) = true.
Proof.
  intros Hp [Hne [el Hq]]. unfold click, trail.
  apply String.eqb_neq in Hne. rewrite Hne, Hq. cbn. rewrite Hp. cbn.
  repeat split; try assumption.
Qed.

(** X10. Every click that scrolls adds an entry to the session history,
    also a click on the link just clicked: after any number of clicks
    whose [href] finds an element (in a browser with
    [history.pushState]) the history up to the current entry is what it
    was followed by the fragments clicked, in order, and nothing is left
    ahead of the current entry. *)
Theorem anchor_history_grows (hs : list (string * document)) (b : browser) :
  hasPushState b = true → Forall scrolls hs →
  trail (clicks hs b) = (trail b ++ map fst hs)%list ∧
  (hs ≠ [] → forward (clicks hs b) = []).
Proof.
  intros Hp Hs. unfold clicks. revert b Hp.
  induction Hs as [ | h hs Hh _ IH]; intros b Hp; cbn.
  - split; [symmetry; apply app_nil_r | congruence].
  - destruct (trail_click h b Hp Hh) as (Ht & Hf & Hp').
    destruct (IH _ Hp') as [IHt IHf]. split.
    + rewrite IHt, Ht, <- app_assoc. reflexivity.
    + intros _. destruct hs as [ | h' hs']; [exact Hf | apply IHf; discriminate].
Qed.

Lemma anchor_history_grows_witness :
  trail (clicks [ ("#features", doc0); ("#features", doc0) ] browser0) =
  [ ""; "#features"; "#features" ].
Proof.
  assert (Hs : Forall scrolls [ ("#features", doc0); ("#features", doc0) ])
    by (repeat constructor; try discriminate; eexists; reflexivity).
  exact (proj1 (anchor_history_grows _ browser0 eq_refl Hs)).
Defined.

End AnchorMoreFacts.

(** ** Scroll reveal *)

Section RevealFacts.

Import Reveal.

Lemma on_entry_lookup (en : entry) (els : list element) (i : nat) :
  on_entry en els !! i =
  (if bool_decide (fst en = i) && snd en then mark else id) <$> els !! i.
Proof.
  destruct en as [target [ | ]]; cbn;
    [| rewrite andb_false_r; symmetry; apply option_fmap_id].
  rewrite andb_true_r. case_bool_decide as Ht.
  - subst target. destruct (els !! i) as [el | ] eqn:Hel; cbn; [| exact Hel].
    apply list_lookup_insert_eq. eapply lookup_lt_Some, Hel.
  - rewrite option_fmap_id.
    destruct (els !! target) as [el | ]; [| reflexivity].
    apply list_lookup_insert_ne, Ht.
Qed.

Lemma mark_mark (el : element) : mark (mark el) = mark el.
Proof. unfold mark. cbn. rewrite add_add. reflexivity. Qed.

Lemma callback_lookup (entries : list entry) (els : list element) (i : nat) :
  callback entries els !! i =
  (if reports i entries then mark else id) <$> els !! i.
Proof.
  unfold callback. revert els.
  induction entries as [ | en entries IH]; intros els;
    [symmetry; apply option_fmap_id |].
  cbn [fold_left]. rewrite IH, on_entry_lookup.
  change (reports i (en :: entries))
    with ((bool_decide (fst en = i) && snd en) || reports i entries).
  destruct (els !! i) as [el | ]; [| reflexivity].
  destruct (bool_decide (fst en = i) && snd en), (reports i entries); cbn;
    rewrite ?mark_mark; reflexivity.
Qed.

Lemma deliver_lookup (calls : list (list entry)) (els : list element) (i : nat) :
  deliver calls els !! i =
  (if reported i calls then mark else id) <$> els !! i.
Proof.
  unfold deliver. revert els.
  induction calls as [ | entries calls IH]; intros els;
    [symmetry; apply option_fmap_id |].
  cbn [fold_left]. rewrite IH, callback_lookup.
  change (reported i (entries :: calls))
    with (reports i entries || reported i calls).
  destruct (els !! i) as [el | ]; [| reflexivity].
  destruct (reports i entries), (reported i calls); cbn;
    rewrite ?mark_mark; reflexivity.
Qed.

Lemma setup_lookup (supported : bool) (cls : list (gset string)) (i : nat) :
  setupScrollReveal supported cls !! i =
  (fun cl => if supported then {| classes := cl; observed := true |}
             else {| classes := classList_add "revealed" cl; observed := false |})
    <$> cls !! i.
Proof.
  unfold setupScrollReveal. destruct supported; cbn; apply list_lookup_fmap.
Qed.

Lemma mark_revealed (el : element) : revealed (mark el).
Proof. unfold revealed, mark. cbn. apply elem_add. right. reflexivity. Qed.

(** X11. No marked element is lost: after [setupScrollReveal] and any
    number of observer callbacks with any entries, every element of the
    snapshot is either still observed or carries [revealed]; without
    [IntersectionObserver] every element carries [revealed] right after
    the setup and none is observed. *)
Theorem reveal_never_lost
        (supported : bool) (cls : list (gset string)) (calls : list (list entry)) :
  Forall (fun el => observed el = true ∨ revealed el)
         (deliver calls (setupScrollReveal supported cls)) ∧
  length (deliver calls (setupScrollReveal supported cls)) = length cls ∧
  Forall (fun el => revealed el ∧ observed el = false) (setupScrollReveal false cls).
Proof.
  split; [| split].
  - apply Forall_lookup. intros i el Hel.
    rewrite deliver_lookup, setup_lookup in Hel.
    destruct (cls !! i) as [cl | ]; [| discriminate Hel]. cbn in Hel.
    injection Hel as <-.
    destruct (reported i calls); [right; apply mark_revealed |].
    destruct supported; cbn; [left; reflexivity |].
    right. unfold revealed. cbn. apply elem_add. right. reflexivity.
  - apply Nat.le_antisymm.
    + destruct (Nat.le_gt_cases (length (deliver calls (setupScrollReveal supported cls)))
                  (length cls)) as [H | H]; [exact H |].
      apply lookup_lt_is_Some in H. destruct H as [el Hel].
      rewrite deliver_lookup, setup_lookup in Hel.
      rewrite (lookup_ge_None_2 cls (length cls)) in Hel by lia. discriminate Hel.
    + destruct (Nat.le_gt_cases (length cls)
                  (length (deliver calls (setupScrollReveal supported cls)))) as [H | H];
        [exact H |].
      pose proof (lookup_ge_None_2 _ _ (Nat.lt_le_incl _ _ H)) as Hnone.
      assert (Hlt : (length (deliver calls (setupScrollReveal supported cls)) < length cls)%nat)
        by exact H.
      apply lookup_lt_is_Some in Hlt. destruct Hlt as [cl Hcl].
      pose proof (lookup_ge_None_2 (deliver calls (setupScrollReveal supported cls))
                    (length (deliver calls (setupScrollReveal supported cls)))
                    (Nat.le_refl _)) as Hn.
      rewrite deliver_lookup, setup_lookup, Hcl in Hn. discriminate Hn.
  - apply Forall_lookup. intros i el Hel. rewrite setup_lookup in Hel.
    destruct (cls !! i) as [cl | ]; [| discriminate Hel]. injection Hel as <-.
    split; [| reflexivity]. unfold revealed. cbn. apply elem_add. right. reflexivity.
Qed.

(** X12. Revealing is one-shot and only adds: whatever the callbacks
    are handed, an element keeps every class it had and gains none but
    [revealed]; it is never observed again once it is not; and an
    element that any entry reports as intersecting ends up revealed and
    unobserved, whatever is reported about it afterwards. *)
Theorem reveal_one_shot
        (calls : list (list entry)) (els : list element) (i : nat) (el : element) :
  els !! i = Some el →
  ∃ el' : element,
    deliver calls els !! i = Some el' ∧
    (∀ c, c ∈ classes el → c ∈ classes el') ∧
    (∀ c, c ∈ classes el' → c ∈ classes el ∨ c = "revealed") ∧
    (observed el' = true → observed el = true) ∧
    (reported i calls = true → revealed el' ∧ observed el' = false) ∧
    (reported i calls = false → el' = el).
Proof.
  intros Hel. rewrite deliver_lookup, Hel. cbn.
  eexists. split; [reflexivity |].
  destruct (reported i calls); cbn.
  - repeat split; try discriminate.
    + intros c Hc. apply elem_add. left. exact Hc.
    + intros c Hc. apply elem_add in Hc. exact Hc.
    + apply mark_revealed.
  - repeat split; try discriminate; auto.
Qed.

Lemma reveal_one_shot_witness :
  ∃ el' : element,
    deliver [ [ (0%nat, true) ]; [ (0%nat, false) ] ]
            (setupScrollReveal true [ {[ "reveal" ]} ]) !! 0%nat = Some el' ∧
    revealed el' ∧ observed el' = false.
Proof.
  destruct (reveal_one_shot [ [ (0%nat, true) ]; [ (0%nat, false) ] ]
              (setupScrollReveal true [ {[ "reveal" ]} ]) 0 _ eq_refl)
    as (el' & Hl & _ & _ & _ & Hr & _).
  exists el'. split; [exact Hl |]. apply Hr. reflexivity.
Defined.

End RevealFacts.

(** ** Page loader *)

Section LoaderFacts.

Import Loader.
Local Open Scope N_scope.

Lemma phase_advance (t0 : N) (cl : gset string) (e d : N) :
  advance d (phase t0 cl e) = phase t0 cl (e + d).
Proof.
  unfold phase, advance, pass.
  destruct (N.ltb_spec e 100) as [He1 | He1];
    [| destruct (N.ltb_spec e 400) as [He2 | He2]];
    destruct (N.ltb_spec (e + d) 100) as [Hd1 | Hd1]; try lia;
    try (destruct (N.ltb_spec (e + d) 400) as [Hd2 | Hd2]); try lia;
    cbn [now loader timers List.filter fst snd];
    repeat match goal with
           | |- context [ ?a <=? ?b ] =>
               destruct (N.leb_spec a b); try lia;
               cbn [now loader timers List.filter fst snd negb fold_left fire app fmap
                    option_fmap option_map]
           end;
    f_equal; try lia; try reflexivity.
Qed.

Lemma phase_waits (t0 : N) (cl : gset string) (ds : list N) (e : N) :
  waits ds (phase t0 cl e) = phase t0 cl (e + total ds).
Proof.
  unfold waits. revert e. induction ds as [ | d ds IH]; intros e.
  - cbn. rewrite N.add_0_r. reflexivity.
  - cbn [fold_left]. rewrite phase_advance, IH.
    change (total (d :: ds)) with (d + total ds). rewrite N.add_assoc. reflexivity.
Qed.

Lemma phase_start (t0 : N) (cl : gset string) :
  hidePageLoader (boot t0 (Some cl)) = phase t0 cl 0.
Proof. unfold hidePageLoader, boot, phase. cbn. rewrite N.add_0_r. reflexivity. Qed.

Lemma no_loader_waits (t0 : N) (ds : list N) :
  waits ds (boot t0 None) = boot (t0 + total ds) None.
Proof.
  unfold waits. revert t0. induction ds as [ | d ds IH]; intros t0.
  - cbn. rewrite N.add_0_r. reflexivity.
  - cbn [fold_left]. change (advance d (boot t0 None)) with (boot (t0 + d) None).
    rewrite IH. change (total (d :: ds)) with (d + total ds).
    rewrite N.add_assoc. reflexivity.
Qed.

(** X13. The loading overlay goes in two steps whatever the pace of the
    clock: once [hidePageLoader] has run on a page with an overlay, the
    overlay is untouched for the first 100 ms, carries [hidden] on top of
    its classes from 100 ms until 400 ms, and from 400 ms on is out of the
    document with no timeout left pending.  On a page without an overlay
    nothing is scheduled and nothing ever happens. *)
Theorem loader_phases (t0 : N) (cl : gset string) (ds : list N) :
  let p := waits ds (hidePageLoader (boot t0 (Some cl))) in
  (total ds < 100 → loader p = Some cl) ∧
  (100 <= total ds → total ds < 400 →
   loader p = Some (classList_add "hidden" cl)) ∧
  (400 <= total ds → loader p = None ∧ timers p = []) ∧
  waits ds (hidePageLoader (boot t0 None)) = boot (t0 + total ds) None.
Proof.
  intros p. subst p. rewrite phase_start, phase_waits, N.add_0_l.
  unfold phase.
  split; [| split; [| split]].
  - intros H. apply N.ltb_lt in H. rewrite H. reflexivity.
  - intros H1 H2. apply N.ltb_ge in H1. apply N.ltb_lt in H2.
    rewrite H1, H2. reflexivity.
  - intros H. assert (H1 : (total ds <? 100) = false) by (apply N.ltb_ge; lia).
    apply N.ltb_ge in H. rewrite H1, H. split; reflexivity.
  - apply no_loader_waits.
Qed.

Lemma loader_phases_witness :
  loader (waits [ 40; 59 ] (hidePageLoader (boot 7 (Some {[ "page-loader" ]})))) =
    Some {[ "page-loader" ]} ∧
  loader (waits [ 40; 60; 299 ] (hidePageLoader (boot 7 (Some {[ "page-loader" ]})))) =
    Some (classList_add "hidden" {[ "page-loader" ]}) ∧
  loader (waits [ 1000 ] (hidePageLoader (boot 7 (Some {[ "page-loader" ]})))) = None.
Proof.
  split; [| split].
  - apply (proj1 (loader_phases 7 {[ "page-loader" ]} [ 40; 59 ])). reflexivity.
  - apply (proj1 (proj2 (loader_phases 7 {[ "page-loader" ]} [ 40; 60; 299 ])));
      [discriminate | reflexivity].
  - apply (proj1 (proj2 (proj2 (loader_phases 7 {[ "page-loader" ]} [ 1000 ])))).
    discriminate.
Defined.

End LoaderFacts.

(** ** Statistics badges: refresh, round trip and frames *)

Section StatsMoreFacts.

Import Stats StatsMore.
Local Open Scope Z_scope.

Lemma show_id (stat text : string) (bs : gmap string string) :
  (∀ v, bs !! stat = Some v → v = text) → show stat text bs = bs.
Proof.
  intros H. unfold show. case_bool_decide as Hp; [| reflexivity].
  destruct Hp as [v Hv]. apply insert_id. rewrite Hv, (H v Hv). reflexivity.
Qed.

Lemma show_lookup_same (stat text : string) (bs : gmap string string) (v : string) :
  show stat text bs !! stat = Some v → v = text.
Proof.
  unfold show. case_bool_decide as Hp.
  - rewrite lookup_insert_eq. congruence.
  - intros Hv. contradict Hp. eauto.
Qed.

Lemma refreshGitHubStats_good (e : env) (key : string) (w : world)
      (body : json) (stars forks : value) (ts tf : string) :
  answer e = Response true (Some body) →
  get "stargazers_count" (Some body) = Ok stars →
  get "forks_count" (Some body) = Ok forks →
  display stars = Ok ts → display forks = Ok tf →
  storage_full e = false →
  refreshGitHubStats e key w =
  (Ok tt,
   {| storage := <[ key := entry (Some (object [ ("stars", stars); ("forks", forks) ]))
                             (now_stored e) ]> (storage w);
      badges := show "github-forks" tf (show "github-stars" ts (badges w));
      requests := (requests w ++ [ "https://api.github.com/repos/Yeachan-Heo/oh-my-codex" ])%list;
      errors := errors w |}).
Proof.
  intros Ha Hs Hf Hds Hdf Hfull.
  unfold refreshGitHubStats. rewrite bind_fetch, Ha. cbn [response_ok negb response_json].
  unfold mbind, M_bind, bind, lift. rewrite Hs, Hf. unfold setItem. rewrite Hfull.
  rewrite (updateGitHubUI_shows _ stars forks ts tf); try assumption.
  - reflexivity.
  - apply get_first. discriminate.
  - apply get_second. discriminate.
Qed.

Lemma refreshNpmDownloads_good (e : env) (key : string) (w : world)
      (body : json) (downloads : value) (text : string) :
  answer e = Response true (Some body) →
  get "downloads" (Some body) = Ok downloads →
  display downloads = Ok text →
  storage_full e = false →
  refreshNpmDownloads e key w =
  (Ok tt,
   {| storage := <[ key := entry downloads (now_stored e) ]> (storage w);
      badges := show "npm-downloads" text (badges w);
      requests := (requests w ++ [ "https://api.npmjs.org/downloads/point/last-month/oh-my-codex" ])%list;
      errors := errors w |}).
Proof.
  intros Ha Hd Hdd Hfull.
  unfold refreshNpmDownloads. rewrite bind_fetch, Ha. cbn [response_ok negb response_json].
  unfold mbind, M_bind, bind, lift. rewrite Hd. unfold setItem. rewrite Hfull.
  rewrite (updateNpmUI_shows downloads text); [reflexivity | assumption].
Qed.

Lemma fetchGitHubStats_good (e : env) (w : world)
      (body : json) (stars forks : value) (ts tf : string) :
  answer e = Response true (Some body) → storage_full e = false →
  misses "omx-github-stats" e w →
  get "stargazers_count" (Some body) = Ok stars →
  get "forks_count" (Some body) = Ok forks →
  display stars = Ok ts → display forks = Ok tf →
  fetchGitHubStats e w =
  (Ok tt,
   {| storage := <[ "omx-github-stats" :=
                      entry (Some (object [ ("stars", stars); ("forks", forks) ]))
                            (now_stored e) ]> (storage w);
      badges := show "github-forks" tf (show "github-stars" ts (badges w));
      requests := (requests w ++ [ "https://api.github.com/repos/Yeachan-Heo/oh-my-codex" ])%list;
      errors := errors w |}).
Proof.
  intros Ha Hfull Hm Hs Hf Hds Hdf.
  rewrite (fetchGitHubStats_miss e w Hm).
  rewrite (refreshGitHubStats_good e _ w body stars forks ts tf); try assumption.
  reflexivity.
Qed.

Lemma fetchNpmDownloads_good (e : env) (w : world)
      (body : json) (downloads : value) (text : string) :
  answer e = Response true (Some body) → storage_full e = false →
  misses "omx-npm-downloads" e w →
  get "downloads" (Some body) = Ok downloads →
  display downloads = Ok text →
  fetchNpmDownloads e w =
  (Ok tt,
   {| storage := <[ "omx-npm-downloads" := entry downloads (now_stored e) ]> (storage w);
      badges := show "npm-downloads" text (badges w);
      requests := (requests w ++ [ "https://api.npmjs.org/downloads/point/last-month/oh-my-codex" ])%list;
      errors := errors w |}).
Proof.
  intros Ha Hfull Hm Hd Hdd.
  rewrite (fetchNpmDownloads_miss e w Hm).
  rewrite (refreshNpmDownloads_good e _ w body downloads text); try assumption.
  reflexivity.
Qed.

(** X14. A refresh that goes well: with no usable record in the cache,
    an answer with a success status whose JSON body gives the counts, and
    room in the storage, the fetcher issues its one request, writes the
    counts and the time of the write under its key, shows each count in
    its badge (where the page has one), and logs nothing. *)
Theorem refresh_fills_cache (e : env) (w : world) (body : json) :
  answer e = Response true (Some body) → storage_full e = false →
  (∀ (stars forks : value) (ts tf : string),
     misses "omx-github-stats" e w →
     get "stargazers_count" (Some body) = Ok stars →
     get "forks_count" (Some body) = Ok forks →
     display stars = Ok ts → display forks = Ok tf →
     fetchGitHubStats e w =
     (Ok tt,
      {| storage := <[ "omx-github-stats" :=
                         entry (Some (object [ ("stars", stars); ("forks", forks) ]))
                               (now_stored e) ]> (storage w);
         badges := show "github-forks" tf (show "github-stars" ts (badges w));
         requests := (requests w ++ [ "https://api.github.com/repos/Yeachan-Heo/oh-my-codex" ])%list;
         errors := errors w |})) ∧
  (∀ (downloads : value) (text : string),
     misses "omx-npm-downloads" e w →
     get "downloads" (Some body) = Ok downloads →
     display downloads = Ok text →
     fetchNpmDownloads e w =
     (Ok tt,
      {| storage := <[ "omx-npm-downloads" := entry downloads (now_stored e) ]> (storage w);
         badges := show "npm-downloads" text (badges w);
         requests := (requests w ++ [ "https://api.npmjs.org/downloads/point/last-month/oh-my-codex" ])%list;
         errors := errors w |})).
Proof.
  intros Ha Hfull. split.
  - intros. apply (fetchGitHubStats_good e w body); assumption.
  - intros. apply (fetchNpmDownloads_good e w body); assumption.
Qed.

Lemma refresh_fills_cache_witness :
  badges (snd (fetchGitHubStats (env_github 1000) world0)) !! "github-stars" =
    Some "1.5k" ∧
  requests (snd (fetchNpmDownloads (env_npm 1000) world0)) =
    [ "https://api.npmjs.org/downloads/point/last-month/oh-my-codex" ].
Proof.
  destruct (refresh_fills_cache (env_github 1000) world0 _ eq_refl eq_refl) as [Hg _].
  destruct (refresh_fills_cache (env_npm 1000) world0 _ eq_refl eq_refl) as [_ Hn].
  split.
  - rewrite (Hg (Some (JNum 1500)) (Some (JNum 999)) "1.5k" "999");
      try reflexivity. left. reflexivity.
  - rewrite (Hn (Some (JNum 2500000)) "2.5M"); try reflexivity. left. reflexivity.
Defined.

(** X15. A refresh whose cache write fails: when the answer is good but
    [setItem] finds the quota exhausted, the counts just fetched are
    thrown away.  The badges show the placeholder, the storage is as it
    was, and the failure is logged, although the request went out and
    was answered. *)
Theorem quota_discards_counts (e : env) (w : world) (body : json) :
  answer e = Response true (Some body) → body ≠ JNull → storage_full e = true →
  (misses "omx-github-stats" e w →
   fetchGitHubStats e w =
   (Ok tt,
    {| storage := storage w;
       badges := show "github-forks" dash (show "github-stars" dash (badges w));
       requests := (requests w ++ [ "https://api.github.com/repos/Yeachan-Heo/oh-my-codex" ])%list;
       errors := (errors w ++ [ "[OMX] Failed to fetch GitHub stats:" ])%list |})) ∧
  (misses "omx-npm-downloads" e w →
   fetchNpmDownloads e w =
   (Ok tt,
    {| storage := storage w;
       badges := show "npm-downloads" dash (badges w);
       requests := (requests w ++ [ "https://api.npmjs.org/downloads/point/last-month/oh-my-codex" ])%list;
       errors := (errors w ++ [ "[OMX] Failed to fetch npm downloads:" ])%list |})).
Proof.
  intros Ha Hbody Hfull. split; intros Hm.
  - rewrite (fetchGitHubStats_miss e w Hm).
    unfold refreshGitHubStats. rewrite bind_fetch, Ha.
    cbn [response_ok negb response_json].
    unfold mbind, M_bind, bind, lift, setItem. rewrite Hfull.
    destruct body as [ | n | fields]; [congruence | |];
      cbn; rewrite failedGitHubStats_run; reflexivity.
  - rewrite (fetchNpmDownloads_miss e w Hm).
    unfold refreshNpmDownloads. rewrite bind_fetch, Ha.
    cbn [response_ok negb response_json].
    unfold mbind, M_bind, bind, lift, setItem. rewrite Hfull.
    destruct body as [ | n | fields]; [congruence | |];
      cbn; rewrite failedNpmDownloads_run; reflexivity.
Qed.

Lemma quota_discards_counts_witness :
  badges (snd (fetchGitHubStats (env_github_full 1000) world0)) !! "github-stars" =
    Some dash ∧
  storage (snd (fetchGitHubStats (env_github_full 1000) world0)) = ∅.
Proof.
  assert (Hb : object [ ("stargazers_count", Some (JNum 1500));
                        ("forks_count", Some (JNum 999)) ] ≠ JNull) by discriminate.
  destruct (quota_discards_counts (env_github_full 1000) world0 _ eq_refl Hb eq_refl)
    as [Hg _].
  rewrite Hg by (left; reflexivity). split; reflexivity.
Defined.

(** X16. Round trip through the cache: after a refresh that went well,
    a second call of the same fetcher less than five minutes after the
    write changes nothing at all.  It issues no request, logs nothing,
    and writes into the badges the texts they already show. *)
Theorem refresh_then_hit (e e' : env) (w : world) (body : json) :
  answer e = Response true (Some body) → storage_full e = false →
  now e' - now_stored e < cacheTTL →
  (∀ (stars forks : value) (ts tf : string),
     misses "omx-github-stats" e w →
     get "stargazers_count" (Some body) = Ok stars →
     get "forks_count" (Some body) = Ok forks →
     display stars = Ok ts → display forks = Ok tf →
     let w1 := snd (fetchGitHubStats e w) in
     fetchGitHubStats e' w1 = (Ok tt, w1)) ∧
  (∀ (downloads : value) (text : string),
     misses "omx-npm-downloads" e w →
     get "downloads" (Some body) = Ok downloads →
     display downloads = Ok text →
     let w1 := snd (fetchNpmDownloads e w) in
     fetchNpmDownloads e' w1 = (Ok tt, w1)).
Proof.
  intros Ha Hfull Hy. split.
  - intros stars forks ts tf Hm Hs Hf Hds Hdf w1. subst w1.
    rewrite (fetchGitHubStats_good e w body stars forks ts tf) by assumption.
    cbn [snd].
    erewrite fetchGitHubStats_hit; [| apply lookup_insert_eq | exact Hy].
    rewrite (updateGitHubUI_shows _ stars forks ts tf); try assumption;
      [| apply get_first; discriminate | apply get_second; discriminate].
    unfold with_badges. cbn [storage badges requests errors].
    rewrite (show_id "github-stars" ts).
    + rewrite (show_id "github-forks" tf); [reflexivity |].
      intros v. apply show_lookup_same.
    + intros v. rewrite show_other by discriminate. apply show_lookup_same.
  - intros downloads text Hm Hd Hdd w1. subst w1.
    rewrite (fetchNpmDownloads_good e w body downloads text) by assumption.
    cbn [snd].
    erewrite fetchNpmDownloads_hit; [| apply lookup_insert_eq | exact Hy].
    rewrite (updateNpmUI_shows downloads text) by assumption.
    unfold with_badges. cbn [storage badges requests errors].
    rewrite (show_id "npm-downloads" text); [reflexivity |].
    intros v. apply show_lookup_same.
Qed.

Lemma refresh_then_hit_witness :
  let w1 := snd (fetchGitHubStats (env_github 1000) world0) in
  fetchGitHubStats (env_offline 300000) w1 = (Ok tt, w1).
Proof.
  assert (Hy : now (env_offline 300000) - now_stored (env_github 1000) < cacheTTL)
    by (vm_compute; reflexivity).
  destruct (refresh_then_hit (env_github 1000) (env_offline 300000) world0 _
              eq_refl eq_refl Hy) as [Hg _].
  apply (Hg (Some (JNum 1500)) (Some (JNum 999)) "1.5k" "999"); try reflexivity.
  left. reflexivity.
Defined.

(** *** What a fetcher may touch *)

Instance own_preorder (key : string) (stats : list string) : PreOrder (own key stats).
Proof.
  split.
  - intros w. split; [left; reflexivity | intros stat _; reflexivity].
  - intros w1 w2 w3 [Hs12 Hb12] [Hs23 Hb23]. split.
    + destruct Hs23 as [-> | (d & t & ->)]; [exact Hs12 |].
      right. exists d, t.
      destruct Hs12 as [-> | (d' & t' & ->)]; [reflexivity |].
      apply insert_insert_eq.
    + intros stat Hn. rewrite (Hb23 stat Hn). apply Hb12, Hn.
Qed.

Lemma keeps_setItem_own (full : bool) (key : string) (stats : list string)
      (data : value) (timestamp : Z) :
  keeps (own key stats) (setItem full key (entry data timestamp)).
Proof.
  intros w. unfold setItem. destruct full; cbn.
  - reflexivity.
  - split; [right; eauto | intros stat _; reflexivity].
Qed.

Lemma keeps_set_textContent_own (key : string) (stats : list string) (stat text : string) :
  stat ∈ stats → keeps (own key stats) (set_textContent stat text).
Proof.
  intros Hin w. split; [left; reflexivity |].
  intros stat' Hn. cbn. apply lookup_insert_ne. intros ->. exact (Hn Hin).
Qed.

Lemma keeps_fetch_own (key : string) (stats : list string) (e : env) (url : string) :
  keeps (own key stats) (fetch e url).
Proof.
  intros w. unfold fetch.
  destruct (answer e); (split; [left; reflexivity | intros stat _; reflexivity]).
Qed.

Lemma keeps_console_error_own (key : string) (stats : list string) (line : string) :
  keeps (own key stats) (console_error line).
Proof.
  intros w. split; [left; reflexivity | intros stat _; reflexivity].
Qed.

Lemma keeps_try_catch (R : world → world → Prop) `{!PreOrder R} {A : Type}
      (body : M A) (handler : error → M A) :
  keeps R body → (∀ err, keeps R (handler err)) → keeps R (try_catch body handler).
Proof.
  intros Hb Hh w. unfold try_catch. specialize (Hb w).
  destruct (body w) as [[a | err] w1]; cbn in *; [exact Hb |].
  etransitivity; [exact Hb | apply Hh].
Qed.

(** Peels a computation down to its primitive steps. *)
Ltac peel :=
  lazymatch goal with
  | |- keeps _ (_ ≫= _) => apply keeps_bind; [typeclasses eauto | | intros ?]
  | |- keeps _ (ret _) => apply keeps_ret; typeclasses eauto
  | |- keeps _ (throw _) => apply keeps_throw; typeclasses eauto
  | |- keeps _ (lift _) => apply keeps_lift; typeclasses eauto
  | |- keeps _ (getItem _) => apply keeps_getItem; typeclasses eauto
  | |- keeps _ (querySelector _) => apply keeps_querySelector; typeclasses eauto
  | |- keeps _ (if ?b then _ else _) => destruct b
  | |- keeps _ (match ?x with _ => _ end) => destruct x
  end.

Lemma keeps_updateGitHubUI_own (key : string) (stats : value) :
  keeps (own key [ "github-stars"; "github-forks" ]) (updateGitHubUI stats).
Proof.
  unfold updateGitHubUI.
  repeat peel; apply keeps_set_textContent_own;
    rewrite !elem_of_cons; tauto.
Qed.

Lemma keeps_updateNpmUI_own (key : string) (downloads : value) :
  keeps (own key [ "npm-downloads" ]) (updateNpmUI downloads).
Proof.
  unfold updateNpmUI.
  repeat peel; apply keeps_set_textContent_own;
    rewrite !elem_of_cons; tauto.
Qed.

Lemma keeps_fetchGitHubStats_own (e : env) :
  keeps (own "omx-github-stats" [ "github-stars"; "github-forks" ]) (fetchGitHubStats e).
Proof.
  unfold fetchGitHubStats. apply keeps_try_catch; [typeclasses eauto | |].
  - unfold refreshGitHubStats.
    repeat peel;
      first [ apply keeps_updateGitHubUI_own | apply keeps_fetch_own
            | apply keeps_setItem_own ].
  - intros _. unfold failedGitHubStats.
    repeat peel;
      first [ apply keeps_updateGitHubUI_own | apply keeps_console_error_own ].
Qed.

Lemma keeps_fetchNpmDownloads_own (e : env) :
  keeps (own "omx-npm-downloads" [ "npm-downloads" ]) (fetchNpmDownloads e).
Proof.
  unfold fetchNpmDownloads. apply keeps_try_catch; [typeclasses eauto | |].
  - unfold refreshNpmDownloads.
    repeat peel;
      first [ apply keeps_updateNpmUI_own | apply keeps_fetch_own
            | apply keeps_setItem_own ].
  - intros _. unfold failedNpmDownloads.
    repeat peel;
      first [ apply keeps_updateNpmUI_own | apply keeps_console_error_own ].
Qed.

Lemma own_other_key (key : string) (stats : list string) (w w' : world) (k : string) :
  own key stats w w' → k ≠ key → storage w' !! k = storage w !! k.
Proof.
  intros [[-> | (d & t & ->)] _] Hne; [reflexivity |].
  apply lookup_insert_ne. congruence.
Qed.

Lemma own_well_formed (key : string) (stats : list string) (w w' : world) (k : string) :
  own key stats w w' → well_formed k w → well_formed k w'.
Proof.
  unfold well_formed. intros [[-> | (d & t & ->)] _] Hwf; [exact Hwf |].
  destruct (decide (k = key)) as [-> | Hne].
  - right. exists d, t. apply lookup_insert_eq.
  - rewrite lookup_insert_ne by congruence. exact Hwf.
Qed.

(** X17. Each fetcher keeps to its own: whatever the cache holds and
    whatever the answer is, a call of the GitHub fetcher leaves every
    storage key other than [omx-github-stats] and every badge other than
    the stars and forks badges as they were, and a call of the npm
    fetcher leaves every key other than [omx-npm-downloads] and every
    badge other than the downloads badge as they were. *)
Theorem fetchers_keep_apart (e : env) (w : world) :
  (∀ k, k ≠ "omx-github-stats" →
        storage (snd (fetchGitHubStats e w)) !! k = storage w !! k) ∧
  (∀ stat, stat ≠ "github-stars" → stat ≠ "github-forks" →
           badges (snd (fetchGitHubStats e w)) !! stat = badges w !! stat) ∧
  (∀ k, k ≠ "omx-npm-downloads" →
        storage (snd (fetchNpmDownloads e w)) !! k = storage w !! k) ∧
  (∀ stat, stat ≠ "npm-downloads" →
           badges (snd (fetchNpmDownloads e w)) !! stat = badges w !! stat).
Proof.
  pose proof (keeps_fetchGitHubStats_own e w) as Hg.
  pose proof (keeps_fetchNpmDownloads_own e w) as Hn.
  repeat split.
  - intros k Hk. exact (own_other_key _ _ _ _ k Hg Hk).
  - intros stat H1 H2. apply Hg. rewrite !elem_of_cons, elem_of_nil. tauto.
  - intros k Hk. exact (own_other_key _ _ _ _ k Hn Hk).
  - intros stat H1. apply Hn. rewrite !elem_of_cons, elem_of_nil. tauto.
Qed.

Lemma fetchers_keep_apart_witness :
  storage (snd (fetchGitHubStats (env_github 400000) (world_cached 0)))
    !! "omx-npm-downloads" = Some (entry (Some (JNum 2500000)) 0) ∧
  badges (snd (fetchNpmDownloads (env_offline 400000) (world_cached 0)))
    !! "github-stars" = Some "0".
Proof.
  destruct (fetchers_keep_apart (env_github 400000) (world_cached 0)) as (Hs & _).
  destruct (fetchers_keep_apart (env_offline 400000) (world_cached 0)) as (_ & _ & _ & Hb).
  rewrite (Hs "omx-npm-downloads") by discriminate.
  rewrite (Hb "github-stars") by discriminate.
  split; reflexivity.
Defined.

(** X18. The script never writes a record it cannot read back: if the
    storage holds nothing or a well-formed [{ data, timestamp }] record
    under a key, it still does after any session of calls of the two
    fetchers, each run to its end before the next, whatever the answers,
    clocks and quota. *)
Theorem cache_stays_well_formed (calls : list (fetcher * env)) (w : world) (k : string) :
  well_formed k w → well_formed k (session calls w).
Proof.
  revert w. induction calls as [ | [f e] calls IH]; intros w Hwf; [exact Hwf |].
  cbn [session fold_left]. apply IH. cbn [fst snd call].
  destruct f.
  - exact (own_well_formed _ _ _ _ k (keeps_fetchGitHubStats_own e w) Hwf).
  - exact (own_well_formed _ _ _ _ k (keeps_fetchNpmDownloads_own e w) Hwf).
Qed.

Lemma cache_stays_well_formed_witness :
  well_formed "omx-github-stats"
    (session [ (GitHub, env_github 1000); (Npm, env_offline 2000);
               (GitHub, env_empty_object) ] world0).
Proof.
  apply cache_stays_well_formed. left. reflexivity.
Defined.

(** *** Records the script cannot use *)

Lemma fetchGitHubStats_corrupt (e : env) (w : world) :
  corrupt "omx-github-stats" w →
  fetchGitHubStats e w =
  (Ok tt,
   {| storage := storage w;
      badges := show "github-forks" dash (show "github-stars" dash (badges w));
      requests := requests w;
      errors := (errors w ++ [ "[OMX] Failed to fetch GitHub stats:" ])%list |}).
Proof.
  intros [Hc | Hc];
    unfold fetchGitHubStats, try_catch, mbind, M_bind, bind, getItem, lift;
    rewrite Hc; cbn; apply failedGitHubStats_run.
Qed.

Lemma fetchNpmDownloads_corrupt (e : env) (w : world) :
  corrupt "omx-npm-downloads" w →
  fetchNpmDownloads e w =
  (Ok tt,
   {| storage := storage w;
      badges := show "npm-downloads" dash (badges w);
      requests := requests w;
      errors := (errors w ++ [ "[OMX] Failed to fetch npm downloads:" ])%list |}).
Proof.
  intros [Hc | Hc];
    unfold fetchNpmDownloads, try_catch, mbind, M_bind, bind, getItem, lift;
    rewrite Hc; cbn; apply failedNpmDownloads_run.
Qed.

(** X19. A record that cannot be read is never repaired: if the text
    under a fetcher's key is not JSON, or is the JSON text [null], then
    every call of that fetcher fails before the request.  However many
    calls are made and whatever the network would answer, no request
    goes out, the storage stays as it is, and each call logs one line. *)
Theorem corrupt_record_sticks (envs : list env) (w : world) :
  (corrupt "omx-github-stats" w →
   let w' := repeatedly fetchGitHubStats envs w in
   requests w' = requests w ∧ storage w' = storage w ∧
   errors w' = (errors w ++ repeat "[OMX] Failed to fetch GitHub stats:" (length envs))%list) ∧
  (corrupt "omx-npm-downloads" w →
   let w' := repeatedly fetchNpmDownloads envs w in
   requests w' = requests w ∧ storage w' = storage w ∧
   errors w' = (errors w ++ repeat "[OMX] Failed to fetch npm downloads:" (length envs))%list).
Proof.
  split; revert w; induction envs as [ | e envs IH]; intros w Hc; cbn zeta;
    try (cbn; rewrite app_nil_r; auto; fail).
  - unfold repeatedly. cbn [fold_left].
    rewrite (fetchGitHubStats_corrupt e w Hc). cbn [snd].
    match goal with
    | |- context [fold_left _ envs ?w1] =>
        destruct (IH w1) as (Hr & Hs & He); [exact Hc |]
    end.
    unfold repeatedly in Hr, Hs, He. rewrite Hr, Hs, He. cbn.
    rewrite <- app_assoc. auto.
  - unfold repeatedly. cbn [fold_left].
    rewrite (fetchNpmDownloads_corrupt e w Hc). cbn [snd].
    match goal with
    | |- context [fold_left _ envs ?w1] =>
        destruct (IH w1) as (Hr & Hs & He); [exact Hc |]
    end.
    unfold repeatedly in Hr, Hs, He. rewrite Hr, Hs, He. cbn.
    rewrite <- app_assoc. auto.
Qed.

Lemma corrupt_record_sticks_witness :
  requests (repeatedly fetchGitHubStats [ env_github 1000; env_github 400000 ]
                       world_corrupt) = [].
Proof.
  destruct (corrupt_record_sticks [ env_github 1000; env_github 400000 ] world_corrupt)
    as [Hg _].
  destruct Hg as (Hr & _); [left; reflexivity | exact Hr].
Defined.

(** X20. A record without a usable timestamp counts as stale: when the
    stored text is empty, or is JSON whose [timestamp] does not convert
    to a number (a bare number, an object without the property), the
    fetcher goes on to the network exactly as with no record, issuing its
    one request. *)
Theorem undated_record_refreshes (e : env) (w : world) :
  (undated "omx-github-stats" w →
   requests (snd (fetchGitHubStats e w)) =
   (requests w ++ [ "https://api.github.com/repos/Yeachan-Heo/oh-my-codex" ])%list) ∧
  (undated "omx-npm-downloads" w →
   requests (snd (fetchNpmDownloads e w)) =
   (requests w ++ [ "https://api.npmjs.org/downloads/point/last-month/oh-my-codex" ])%list).
Proof.
  split.
  - intros Hu.
    assert (fetchGitHubStats e w =
            match refreshGitHubStats e "omx-github-stats" w with
            | (Ok a, w1) => (Ok a, w1)
            | (Throw _, w1) => failedGitHubStats w1
            end) as ->.
    { unfold fetchGitHubStats, try_catch, mbind, M_bind, bind, getItem, lift, ret.
      destruct Hu as [Hc | (j & t & Hc & Ht & Hn)]; rewrite Hc; [reflexivity |].
      destruct j as [ | n | fields]; cbn [get] in Ht; [discriminate | |];
        injection Ht as <-; cbn [JSON_parse get]; unfold fresh;
        [reflexivity | rewrite Hn; reflexivity]. }
    pose proof (refreshGitHubStats_requests e "omx-github-stats" w) as Hk.
    destruct (refreshGitHubStats e "omx-github-stats" w) as [[[] | err] w1];
      cbn in *; [exact Hk |].
    rewrite failedGitHubStats_run. exact Hk.
  - intros Hu.
    assert (fetchNpmDownloads e w =
            match refreshNpmDownloads e "omx-npm-downloads" w with
            | (Ok a, w1) => (Ok a, w1)
            | (Throw _, w1) => failedNpmDownloads w1
            end) as ->.
    { unfold fetchNpmDownloads, try_catch, mbind, M_bind, bind, getItem, lift, ret.
      destruct Hu as [Hc | (j & t & Hc & Ht & Hn)]; rewrite Hc; [reflexivity |].
      destruct j as [ | n | fields]; cbn [get] in Ht; [discriminate | |];
        injection Ht as <-; cbn [JSON_parse get]; unfold fresh;
        [reflexivity | rewrite Hn; reflexivity]. }
    pose proof (refreshNpmDownloads_requests e "omx-npm-downloads" w) as Hk.
    destruct (refreshNpmDownloads e "omx-npm-downloads" w) as [[[] | err] w1];
      cbn in *; [exact Hk |].
    rewrite failedNpmDownloads_run. exact Hk.
Qed.

Lemma undated_record_refreshes_witness :
  requests (snd (fetchGitHubStats (env_offline 1000) world_undated)) =
  [ "https://api.github.com/repos/Yeachan-Heo/oh-my-codex" ].
Proof.
  destruct (undated_record_refreshes (env_offline 1000) world_undated) as [Hg _].
  apply Hg. right. exists (JNum 7), None. repeat split; reflexivity.
Defined.

End StatsMoreFacts.

(** ** Number formatting away from the halfway points *)

Section RenderingMoreFacts.

Local Open Scope Z_scope.

Lemma nearest_off_halfway (n t u : Z) :
  0 < u → Z.abs (2 * u * t - n) <= u → n mod (2 * u) ≠ u → t = (n + u) / (2 * u).
Proof.
  intros Hu Hnear Hoff.
  apply Z.div_unique with (r := n + u - 2 * u * t); [| lia].
  left. split; [lia |].
  assert (n + u - 2 * u * t ≠ 2 * u); [| lia].
  intros Heq. apply Hoff.
  replace n with (u + t * (2 * u)) by lia.
  rewrite Z.mod_add by lia. apply Z.mod_small. lia.
Qed.

(** X21. Away from the halfway points the rendering is plain rounding to
    the nearest tenth: a count from 1000 up to a million that does not
    end in 50 shows [(n + 50) / 100] tenths of a thousand, and a count
    from a million up to 2^47 that does not end in 50000 shows
    [(n + 50000) / 100000] tenths of a million.  The double quotient and
    its rounding never move the digit shown. *)
Theorem formatNumber_nearest (n : Z) :
  (1000 <= n < 1000000 → n mod 100 ≠ 50 →
   formatNumber (Some (JNum n)) = Ok (one_decimal ((n + 50) / 100) +:+ "k")) ∧
  (1000000 <= n < 2 ^ 47 → n mod 100000 ≠ 50000 →
   formatNumber (Some (JNum n)) = Ok (one_decimal ((n + 50000) / 100000) +:+ "M")).
Proof.
  split; intros Hn Hoff.
  - destruct (formatNumber_thousands n Hn) as (t & -> & _ & Hnear).
    rewrite (nearest_off_halfway n t 50); [reflexivity | lia | lia | exact Hoff].
  - destruct (formatNumber_millions n ltac:(lia)) as (t & -> & _ & Hnear).
    specialize (Hnear ltac:(lia)).
    rewrite (nearest_off_halfway n t 50000); [reflexivity | lia | lia | exact Hoff].
Qed.

Lemma formatNumber_nearest_witness :
  formatNumber (Some (JNum 123456)) = Ok "123.5k" ∧
  formatNumber (Some (JNum 98765432)) = Ok "98.8M".
Proof.
  split.
  - apply (proj1 (formatNumber_nearest 123456)); [lia | vm_compute; discriminate].
  - apply (proj2 (formatNumber_nearest 98765432)); [lia | vm_compute; discriminate].
Defined.

(** X22. The top of the thousands range does not roll over to millions:
    every count from 999950 up to 999999 shows as [1000.0k], the unit
    being chosen before the rounding. *)
Theorem formatNumber_rolls_over (n : Z) :
  999950 <= n < 1000000 → formatNumber (Some (JNum n)) = Ok "1000.0k".
Proof.
  intros Hn.
  destruct (decide (n = 999950)) as [-> | Hne]; [vm_compute; reflexivity |].
  destruct (formatNumber_thousands n ltac:(lia)) as (t & -> & _ & Hnear).
  assert (t = 10000) as -> by lia. reflexivity.
Qed.

Lemma formatNumber_rolls_over_witness :
  formatNumber (Some (JNum 999999)) = Ok "1000.0k".
Proof. apply formatNumber_rolls_over. lia. Defined.

End RenderingMoreFacts.
